(** * Video upload pipeline: a shallow embedding of [handlerUploadVideo]

    The development follows the upload handler of the API server
    ([handlerUploadVideo], [getVideoAspectRatio], [processVideoForFastStart])
    statement by statement.  JavaScript numbers are IEEE-754 binary64 values
    ([spec_float] with [prec = 53], [emax = 1024]); the database, the local
    disk and the object store are finite maps threaded through a small
    state-and-exception monad; everything the handler obtains from outside
    (token validation, spawned processes, the object store's answer, the
    random bytes) is read from an explicit environment record.

    Console output is left out.  Writing and removing local files and
    decoding the multipart body are taken to succeed; every other failure the
    handler can meet is an exception of the monad. *)

From Stdlib Require Import ZArith Ascii Floats.SpecFloat.
From stdpp Require Import gmap strings list.

Open Scope string_scope.
Open Scope Z_scope.

(** ** JavaScript values used by the handler *)

Module JS.

(** [number] is a binary64 float. *)
Definition prec : Z := 53.
Definition emax : Z := 1024.
Definition number : Type := spec_float.

(** The Number value of a mathematical integer (round to nearest, ties to
    even), as produced by [parseInt] on a digit string. *)
Definition of_Z (z : Z) : number := binary_normalize prec emax z 0 false.

(** [a / b] *)
Definition div (a b : number) : number := SFdiv prec emax a b.

(** [a >= b] and [a <= b]; both are false as soon as one side is NaN. *)
Definition ge (a b : number) : bool := SFleb b a.
Definition le (a b : number) : bool := SFleb a b.

(** The decimal literals of the source, as the binary64 values nearest to
    them: 1.70 = 0x3FFB333333333333, 1.80 = 0x3FFCCCCCCCCCCCCD,
    0.50 = 0x3FE0000000000000, 0.60 = 0x3FE3333333333333. *)
Definition lit_1_70 : number := S754_finite false 7656119366529843 (-52).
Definition lit_1_80 : number := S754_finite false 8106479329266893 (-52).
Definition lit_0_50 : number := S754_finite false 4503599627370496 (-53).
Definition lit_0_60 : number := S754_finite false 5404319552844595 (-53).

(** [ToInt32] and the [<<] operator on int32 operands. *)
Definition to_int32 (z : Z) : Z :=
  let m := z mod 2 ^ 32 in if 2 ^ 31 <=? m then m - 2 ^ 32 else m.
Definition shl (a b : Z) : Z := to_int32 (Z.shiftl (to_int32 a) (b mod 32)).

(** Truthiness of a possibly-undefined string: [undefined] and the empty
    string are falsy. *)
Definition truthy (s : option string) : bool :=
  match s with
  | None => false
  | Some s => negb (String.eqb s "")
  end.

(** [`${v}`] for a value that is a string or [undefined]. *)
Definition template (v : option string) : string :=
  match v with
  | Some s => s
  | None => "undefined"
  end.

(** A [ReadableStream] holding the text a process wrote to a pipe.  A
    template literal applies [ToString] to the stream object itself, which
    yields the class string and never the buffered text. *)
Record ReadableStream : Type := { buffered : string }.
Definition stream_text (s : ReadableStream) : string := buffered s.
Definition stream_template (s : ReadableStream) : string :=
  "[object ReadableStream]".

(** [Uint8Array.prototype.toHex]: two lowercase digits per byte. *)
Definition hex_digit (n : N) : ascii :=
  match n with
  | 0%N => "0" | 1%N => "1" | 2%N => "2" | 3%N => "3"
  | 4%N => "4" | 5%N => "5" | 6%N => "6" | 7%N => "7"
  | 8%N => "8" | 9%N => "9" | 10%N => "a" | 11%N => "b"
  | 12%N => "c" | 13%N => "d" | 14%N => "e" | _ => "f"
  end%char.

Fixpoint toHex (bs : list Byte.byte) : string :=
  match bs with
  | [] => ""
  | b :: rest =>
      let n := Byte.to_N b in
      String (hex_digit (n / 16)) (String (hex_digit (n mod 16)) (toHex rest))
  end.

Definition is_hex_digit (c : ascii) : bool :=
  bool_decide (c ∈ String.list_ascii_of_string "0123456789abcdef").

End JS.

(** ** [path/posix]: [join] and [normalize] *)

Module Posix.

Definition sep : ascii := "/"%char.

(** The segments of a path between separators. *)
Fixpoint split (s : string) : list string :=
  match s with
  | EmptyString => [EmptyString]
  | String c r =>
      if Ascii.eqb c sep then EmptyString :: split r
      else match split r with
           | h :: t => String c h :: t
           | [] => [String c EmptyString]
           end
  end.

(** [normalizeString]: walks the segments left to right keeping a stack of
    the segments retained so far ([acc], most recent first).  Empty
    segments and [.] are dropped; [..] pops the last retained segment
    unless that segment is itself [..] or nothing is retained, in which
    case it is kept only when [allowAboveRoot]. *)
Fixpoint normalizeString (allowAboveRoot : bool) (acc segs : list string)
  : list string :=
  match segs with
  | [] => rev acc
  | s :: rest =>
      if String.eqb s "" || String.eqb s "." then
        normalizeString allowAboveRoot acc rest
      else if String.eqb s ".." then
        match acc with
        | top :: acc' =>
            if String.eqb top ".." then
              normalizeString allowAboveRoot
                (if allowAboveRoot then ".." :: acc else acc) rest
            else normalizeString allowAboveRoot acc' rest
        | [] =>
            normalizeString allowAboveRoot
              (if allowAboveRoot then [".."] else []) rest
        end
      else normalizeString allowAboveRoot (s :: acc) rest
  end.

Fixpoint last_char (s : string) : option ascii :=
  match s with
  | EmptyString => None
  | String c EmptyString => Some c
  | String _ r => last_char r
  end.

Definition first_char (s : string) : option ascii :=
  match s with
  | EmptyString => None
  | String c _ => Some c
  end.

Definition normalize (path : string) : string :=
  if String.eqb path "" then "."
  else
    let isAbsolute := bool_decide (first_char path = Some sep) in
    let trailingSeparator := bool_decide (last_char path = Some sep) in
    let path' :=
      String.concat "/" (normalizeString (negb isAbsolute) [] (split path)) in
    if String.eqb path' "" then
      if isAbsolute then "/" else if trailingSeparator then "./" else "."
    else
      let path'' := if trailingSeparator then path' +:+ "/" else path' in
      if isAbsolute then "/" +:+ path'' else path''.

Definition join (args : list string) : string :=
  match filter (fun a => a ≠ "") args with
  | [] => "."
  | parts => normalize (String.concat "/" parts)
  end.

End Posix.

(** ** Data model *)

Definition bytes : Type := list Byte.byte.

(** A row of the videos table.  Only the fields the handlers touch are kept. *)
Record Video : Type := {
  id : string;
  userID : string;
  videoURL : option string;
  thumbnailURL : option string;
}.

(** A [File] entry of a multipart form: the size and media type reported by
    the runtime, and the payload. *)
Record File : Type := {
  size : Z;
  type : string;
  payload : bytes;
}.

Inductive FormValue : Type :=
| FormString (s : string)
| FormFile (f : File).

Record Headers : Type := { bearer : option string }.

Record Request : Type := {
  params_videoId : option string;
  headers : Headers;
  formData : gmap string FormValue;
}.

Record Response : Type := { status : Z; body : Video }.

Record ApiConfig : Type := {
  jwtSecret : string;
  s3Bucket : string;
  s3Region : string;
}.

Record S3Object : Type := { content : bytes; contentType : string }.

(** The state a run can observe and change: the videos table, the local
    filesystem and the object store (keyed by bucket and key). *)
Record World : Type := {
  db : gmap string Video;
  disk : gmap string bytes;
  store : gmap (string * string) S3Object;
}.

(** ** Exceptions and the handler monad *)

Inductive exn : Type :=
| BadRequestError (msg : string)
| NotFoundError (msg : string)
| UserForbiddenError (msg : string)
| UserNotAuthenticatedError (msg : string)
| Error (msg : string)
| TypeError (msg : string)
| SyntaxError (msg : string)
| SystemError (msg : string)
| S3Error (msg : string).

(** The failure kinds of the error taxonomy.  A probe whose output does not
    parse counts as a tool failure, like a tool that exits non-zero. *)
Inductive ErrorKind : Type :=
| BadRequest | NotFound | Forbidden | Unauthenticated
| ToolFailure | UploadFailure.

Definition kind_of (e : exn) : ErrorKind :=
  match e with
  | BadRequestError _ => BadRequest
  | NotFoundError _ => NotFound
  | UserForbiddenError _ => Forbidden
  | UserNotAuthenticatedError _ => Unauthenticated
  | Error _ | TypeError _ | SyntaxError _ => ToolFailure
  | SystemError _ | S3Error _ => UploadFailure
  end.

Inductive result (A : Type) : Type :=
| Return (a : A)
| Throw (e : exn).
Arguments Return {A} a.
Arguments Throw {A} e.

(** A computation reads and updates the world and either returns or throws;
    the effects performed before a throw stay in the world. *)
Definition M (A : Type) : Type := World -> result A * World.

Definition ret {A} (a : A) : M A := fun w => (Return a, w).
Definition throw {A} (e : exn) : M A := fun w => (Throw e, w).
Definition bind {A B} (c : M A) (k : A -> M B) : M B :=
  fun w =>
    match c w with
    | (Return a, w') => k a w'
    | (Throw e, w') => (Throw e, w')
    end.

Notation "x <- c ;; k" := (bind c (fun x => k))
  (at level 100, c at next level, right associativity).

Definition set_db (f : gmap string Video -> gmap string Video) (w : World) : World :=
  {| db := f (db w); disk := disk w; store := store w |}.
Definition set_disk (f : gmap string bytes -> gmap string bytes) (w : World) : World :=
  {| db := db w; disk := f (disk w); store := store w |}.
Definition set_store
  (f : gmap (string * string) S3Object -> gmap (string * string) S3Object)
  (w : World) : World :=
  {| db := db w; disk := disk w; store := f (store w) |}.

(** ** The environment of one run *)

(** What a spawned process did: its exit code ([None] when it was killed by a
    signal), the signal, the text written to stdout and stderr, and the files
    it created or overwrote. *)
Record ProcOutcome : Type := {
  exit_code : option Z;
  signal : option string;
  out_text : string;
  err_text : string;
  writes : list (string * bytes);
}.

(** What parsing the probe's output yields: the two numbers (NaN for a missing
    or non-numeric entry), a [SyntaxError] of [JSON.parse], or the [TypeError]
    of reading [streams[0]] when there is no such entry. *)
Inductive Parsed : Type :=
| Dims (width height : JS.number)
| BadJson (msg : string)
| NoStream (msg : string).

Record Env : Type := {
  (** the principal a token is valid for under a secret, if any *)
  jwt_subject : string -> string -> option string;
  (** the behaviour of the command line given to [Bun.spawn] *)
  exec : list string -> ProcOutcome;
  (** [JSON.parse(out, reviver)] followed by the reads of
      [data.streams[0].width] and [data.streams[0].height] *)
  probe_dims : string -> Parsed;
  (** the object store's answer to a write under (bucket, key): [None] when
      it accepts, the rejection otherwise *)
  s3_reject : string -> string -> option string;
  (** the bytes [randomBytes] draws *)
  entropy : nat -> Byte.byte;
}.

Inductive Stdio : Type := pipe | null.

Record Subprocess : Type := {
  exitCode : option Z;
  signalCode : option string;
  stdout : option JS.ReadableStream;
  stderr : option JS.ReadableStream;
}.

Definition MAX_UPLOAD_LIMIT : Z := JS.shl 1 30.

(** ** Collaborators *)

Section Handler.

Variable env : Env.

(** Modelled from the spec: the Auth collaborator's
    [extractToken(headers) -> token] ([getBearerToken] of [../auth]), which
    fails with an authentication error when the credential is missing. *)
Definition getBearerToken (h : Headers) : M string :=
  match bearer h with
  | Some token => ret token
  | None => throw (UserNotAuthenticatedError "malformed authorization header")
  end.

(** Modelled from the spec: the Auth collaborator's
    [validate(token, secret) -> principalId] ([validateJWT] of [../auth]),
    which fails with an authentication error on an invalid token. *)
Definition validateJWT (token secret : string) : M string :=
  match jwt_subject env token secret with
  | Some subject => ret subject
  | None => throw (UserNotAuthenticatedError "invalid token")
  end.

(** Modelled from the spec: the persistence collaborator's
    [get(id) -> Record | absent] ([getVideo] of [../db/videos]). *)
Definition getVideo (videoId : string) : M (option Video) :=
  fun w => (Return (db w !! videoId), w).

(** Modelled from the spec: the persistence collaborator's
    [update(record) -> void] ([updateVideo] of [../db/videos]); it rewrites
    the row with the record's identifier and never creates one. *)
Definition updateVideo (video : Video) : M unit :=
  fun w =>
    (Return tt,
     set_db (fun d => match d !! id video with
                      | Some _ => <[id video := video]> d
                      | None => d
                      end) w).

Definition respondWithJSON (code : Z) (payload : Video) : Response :=
  {| status := code; body := payload |}.

(** ** Runtime operations *)

(** [Bun.write(path, file)] *)
Definition Bun_write (path : string) (file : File) : M unit :=
  fun w => (Return tt, set_disk (insert path (payload file)) w).

(** [rm(path, { force: true })]: removes the file, silently when absent. *)
Definition rm_force (path : string) : M unit :=
  fun w => (Return tt, set_disk (delete path) w).

(** [randomBytes(n)] *)
Definition randomBytes (n : nat) : bytes := map (entropy env) (seq 0 n).

Definition stream_of (mode : Stdio) (text : string) : option JS.ReadableStream :=
  match mode with
  | pipe => Some {| JS.buffered := text |}
  | null => None
  end.

(** The files a process leaves behind, written in order. *)
Definition apply_writes (ws : list (string * bytes)) (d : gmap string bytes)
  : gmap string bytes :=
  foldl (fun d' kv => <[kv.1 := kv.2]> d') d ws.

(** [Bun.spawn(argv, { stdout, stderr })] followed by [await proc.exited]:
    the process has run to completion and left its files on disk. *)
Definition Bun_spawn (argv : list string) (out err : Stdio) : M Subprocess :=
  fun w =>
    let o := exec env argv in
    (Return {| exitCode := exit_code o;
               signalCode := signal o;
               stdout := stream_of out (out_text o);
               stderr := stream_of err (err_text o) |},
     set_disk (apply_writes (writes o)) w).

(** [stream.text()] on a possibly absent stream. *)
Definition text (s : option JS.ReadableStream) : M string :=
  match s with
  | Some s => ret (JS.stream_text s)
  | None => throw (TypeError "undefined is not an object")
  end.

(** [s3Client.file(key, { bucket }).write(Bun.file(path), { type })]: reads
    the local file and stores it under the key unless the store rejects. *)
Definition s3_write (bucket key path mediaType : string) : M unit :=
  fun w =>
    match disk w !! path with
    | None => (Throw (SystemError "ENOENT"), w)
    | Some data =>
        match s3_reject env bucket key with
        | Some msg => (Throw (S3Error msg), w)
        | None =>
            (Return tt,
             set_store (insert (bucket, key)
                          {| content := data; contentType := mediaType |}) w)
        end
    end.

(** ** The classifier (the three comparisons of [getVideoAspectRatio]) *)

Definition classify (width height : JS.number) : string :=
  let fileRatio := JS.div width height in
  if JS.ge fileRatio JS.lit_1_70 && JS.le fileRatio JS.lit_1_80 then "landscape"
  else if JS.ge fileRatio JS.lit_0_50 && JS.le fileRatio JS.lit_0_60 then "portrait"
  else "other".

Definition ffprobe_argv (filePath : string) : list string :=
  ["ffprobe"; "-v"; "error"; "-select_streams"; "v:0"; "-show_entries";
   "stream=width,height"; "-of"; "json"; filePath].

(** [getVideoAspectRatio]: the label on a zero exit code; on any other
    outcome the function only logs and falls off its end, so the caller
    receives [undefined] ([None]). *)
Definition getVideoAspectRatio (filePath : string) : M (option string) :=
  proc <- Bun_spawn (ffprobe_argv filePath) pipe pipe ;;
  if bool_decide (exitCode proc = Some 0) then
    out <- text (stdout proc) ;;
    match probe_dims env out with
    | Dims width height => ret (Some (classify width height))
    | BadJson msg => throw (SyntaxError msg)
    | NoStream msg => throw (TypeError msg)
    end
  else ret None.

Definition ffmpeg_argv (inFilePath outFilePath : string) : list string :=
  ["ffmpeg"; "-i"; inFilePath; "-movflags"; "faststart"; "-map_metadata";
   "0"; "-codec"; "copy"; "-f"; "mp4"; outFilePath].

(** [processVideoForFastStart]: on a non-zero exit code it throws an
    [Error] whose message is the template literal of [proc.stderr] when
    that stream object is present; there is one spawn and no loop. *)
Definition processVideoForFastStart (inFilePath : string) : M string :=
  let outFilePath := inFilePath +:+ ".processed" in
  proc <- Bun_spawn (ffmpeg_argv inFilePath outFilePath) null pipe ;;
  _ <- (if bool_decide (exitCode proc ≠ Some 0) then
          match stderr proc with
          | Some s => throw (Error (JS.stream_template s))
          | None => ret tt
          end
        else ret tt) ;;
  ret outFilePath.

(** ** The orchestrator *)

Definition tempFilePath_of (videoId : string) : string :=
  Posix.join ["/tmp"; videoId +:+ ".mp4"].

Definition key_of (ratio : option string) (random : bytes) : string :=
  JS.template ratio +:+ "/" +:+ JS.toHex random +:+ ".mp4".

Definition url_of (cfg : ApiConfig) (key : string) : string :=
  "https://" +:+ s3Bucket cfg +:+ ".s3." +:+ s3Region cfg
    +:+ ".amazonaws.com/" +:+ key.

Definition with_videoURL (video : Video) (url : string) : Video :=
  {| id := id video; userID := userID video;
     videoURL := Some url; thumbnailURL := thumbnailURL video |}.

Definition handlerUploadVideo (cfg : ApiConfig) (req : Request) : M Response :=
  videoId <- match params_videoId req with
             | Some v =>
                 if JS.truthy (Some v) then ret v
                 else throw (BadRequestError "invalid video id")
             | None => throw (BadRequestError "invalid video id")
             end ;;
  token <- getBearerToken (headers req) ;;
  userId <- validateJWT token (jwtSecret cfg) ;;
  found <- getVideo videoId ;;
  video <- match found with
           | Some v => ret v
           | None => throw (NotFoundError "video not found")
           end ;;
  _ <- (if bool_decide (userID video ≠ userId)
        then throw (UserForbiddenError "user not authorized")
        else ret tt) ;;
  file <- match formData req !! "video" with
          | Some (FormFile f) => ret f
          | _ => throw (BadRequestError "data is not a file")
          end ;;
  _ <- (if size file >? MAX_UPLOAD_LIMIT
        then throw (BadRequestError "file exceeds upload limit (1GB)")
        else ret tt) ;;
  let mediaType := type file in
  _ <- (if bool_decide (mediaType ≠ "video/mp4")
        then throw (BadRequestError "wrong media type")
        else ret tt) ;;
  let tempFilePath := tempFilePath_of videoId in
  _ <- Bun_write tempFilePath file ;;
  ratio <- getVideoAspectRatio tempFilePath ;;
  let key := key_of ratio (randomBytes 32) in
  tempProcessedFilePath <- processVideoForFastStart tempFilePath ;;
  _ <- s3_write (s3Bucket cfg) key tempProcessedFilePath mediaType ;;
  let video' := with_videoURL video (url_of cfg key) in
  _ <- updateVideo video' ;;
  _ <- rm_force tempFilePath ;;
  ret (respondWithJSON 200 video').

End Handler.

(** ** Vocabulary of the statements *)

(** One run of the handler: its outcome and the world it leaves. *)
Definition run (env : Env) (cfg : ApiConfig) (req : Request) (w : World)
  : result Response * World :=
  handlerUploadVideo env cfg req w.

Definition processed_path_of (videoId : string) : string :=
  tempFilePath_of videoId +:+ ".processed".

(** The validations of the handler, each read off the request on its own.  A
    check whose inputs are missing (no identifier, no principal, no record,
    no file) does not fail. *)
Inductive Check : Type :=
| CheckId | CheckBearer | CheckToken | CheckFound | CheckOwner
| CheckIsFile | CheckSize | CheckType.

Definition principal_of (env : Env) (cfg : ApiConfig) (req : Request)
  : option string :=
  match bearer (headers req) with
  | Some token => jwt_subject env token (jwtSecret cfg)
  | None => None
  end.

Definition record_of (req : Request) (w : World) : option Video :=
  match params_videoId req with
  | Some v => db w !! v
  | None => None
  end.

Definition file_of (req : Request) : option File :=
  match formData req !! "video" with
  | Some (FormFile f) => Some f
  | _ => None
  end.

Definition failure (env : Env) (cfg : ApiConfig) (req : Request) (w : World)
  (c : Check) : option exn :=
  match c with
  | CheckId =>
      if JS.truthy (params_videoId req) then None
      else Some (BadRequestError "invalid video id")
  | CheckBearer =>
      match bearer (headers req) with
      | Some _ => None
      | None => Some (UserNotAuthenticatedError "malformed authorization header")
      end
  | CheckToken =>
      match bearer (headers req) with
      | Some token =>
          match jwt_subject env token (jwtSecret cfg) with
          | Some _ => None
          | None => Some (UserNotAuthenticatedError "invalid token")
          end
      | None => None
      end
  | CheckFound =>
      match params_videoId req with
      | Some v =>
          match db w !! v with
          | Some _ => None
          | None => Some (NotFoundError "video not found")
          end
      | None => None
      end
  | CheckOwner =>
      match record_of req w, principal_of env cfg req with
      | Some video, Some user =>
          if bool_decide (userID video ≠ user)
          then Some (UserForbiddenError "user not authorized") else None
      | _, _ => None
      end
  | CheckIsFile =>
      match file_of req with
      | Some _ => None
      | None => Some (BadRequestError "data is not a file")
      end
  | CheckSize =>
      match file_of req with
      | Some f =>
          if size f >? MAX_UPLOAD_LIMIT
          then Some (BadRequestError "file exceeds upload limit (1GB)") else None
      | None => None
      end
  | CheckType =>
      match file_of req with
      | Some f =>
          if bool_decide (type f ≠ "video/mp4")
          then Some (BadRequestError "wrong media type") else None
      | None => None
      end
  end.

(** The error of the first failing check of a list, if any. *)
Fixpoint first_failure (env : Env) (cfg : ApiConfig) (req : Request) (w : World)
  (order : list Check) : option exn :=
  match order with
  | [] => None
  | c :: rest =>
      match failure env cfg req w c with
      | Some e => Some e
      | None => first_failure env cfg req w rest
      end
  end.

(** The order in which the handler's statements run the checks. *)
Definition handler_order : list Check :=
  [CheckId; CheckBearer; CheckToken; CheckFound; CheckOwner;
   CheckIsFile; CheckSize; CheckType].

(** The checks that come before the size check in the handler. *)
Definition access_checks : list Check :=
  [CheckId; CheckBearer; CheckToken; CheckFound; CheckOwner; CheckIsFile].

(** The order of steps 1 to 3 of the orchestrator's description: declared
    size, declared media type, then record resolution with the not-found and
    forbidden checks. *)
Definition described_order : list Check :=
  [CheckSize; CheckType; CheckFound; CheckOwner].

(** The stages between validation and upload go through: the probe either
    exits non-zero or its output parses, the remux exits with zero and wrote
    its output file. *)
Definition probe_passes (env : Env) (videoId : string) : bool :=
  let o := exec env (ffprobe_argv (tempFilePath_of videoId)) in
  if bool_decide (exit_code o = Some 0) then
    match probe_dims env (out_text o) with
    | Dims _ _ => true
    | _ => false
    end
  else true.

Definition remux_passes (env : Env) (videoId : string) : bool :=
  let o := exec env (ffmpeg_argv (tempFilePath_of videoId) (processed_path_of videoId)) in
  bool_decide (exit_code o = Some 0) &&
  bool_decide (processed_path_of videoId ∈ (writes o).*1).

(** The label the probe step hands to the key generator. *)
Definition ratio_of (env : Env) (videoId : string) : option string :=
  let o := exec env (ffprobe_argv (tempFilePath_of videoId)) in
  if bool_decide (exit_code o = Some 0) then
    match probe_dims env (out_text o) with
    | Dims width height => Some (classify width height)
    | _ => None
    end
  else None.

Definition labels : list string := ["landscape"; "portrait"; "other"].

(** [<label>/<hex of n random bytes>.<ext>] *)
Definition key_form (n : nat) (key : string) : Prop :=
  ∃ label random ext,
    label ∈ labels ∧ length random = n ∧
    key = label +:+ "/" +:+ JS.toHex random +:+ "." +:+ ext.

Definition no_slash (s : string) : Prop :=
  Posix.sep ∉ String.list_ascii_of_string s.

(** Both temporary files of the run for [videoId] are gone. *)
Definition cleaned_up (videoId : string) (w : World) : Prop :=
  disk w !! tempFilePath_of videoId = None ∧
  disk w !! processed_path_of videoId = None.

(** The handler from the staging write on (lines 49 to 72), for a request
    that passed every validation. *)
Definition after_validation (env : Env) (cfg : ApiConfig)
  (videoId : string) (video : Video) (file : File) : M Response :=
  let mediaType := type file in
  let tempFilePath := tempFilePath_of videoId in
  _ <- Bun_write tempFilePath file ;;
  ratio <- getVideoAspectRatio env tempFilePath ;;
  let key := key_of ratio (randomBytes env 32) in
  tempProcessedFilePath <- processVideoForFastStart env tempFilePath ;;
  _ <- s3_write env (s3Bucket cfg) key tempProcessedFilePath mediaType ;;
  let video' := with_videoURL video (url_of cfg key) in
  _ <- updateVideo video' ;;
  _ <- rm_force tempFilePath ;;
  ret (respondWithJSON 200 video').

(** ** Sample data for the concrete runs *)

Module Sample.

Definition cfg : ApiConfig :=
  {| jwtSecret := "secret"; s3Bucket := "tubely"; s3Region := "eu-west-1" |}.

Definition v1 : Video :=
  {| id := "v1"; userID := "u1";
     videoURL := Some "https://tubely.s3.eu-west-1.amazonaws.com/old.mp4";
     thumbnailURL := None |}.

Definition world : World :=
  {| db := {["v1" := v1]}; disk := ∅; store := ∅ |}.

Definition clip : File :=
  {| size := 4; type := "video/mp4";
     payload := [Byte.x00; Byte.x01; Byte.x02; Byte.x03] |}.

Definition other_clip : File :=
  {| size := 2; type := "video/mp4"; payload := [Byte.xca; Byte.xfe] |}.

Definition huge : File :=
  {| size := 2 ^ 30 + 1; type := "video/mp4"; payload := [] |}.

Definition at_limit : File :=
  {| size := 2 ^ 30; type := "video/mp4"; payload := [] |}.

Definition request (videoId token : string) (f : File) : Request :=
  {| params_videoId := Some videoId;
     headers := {| bearer := Some token |};
     formData := {["video" := FormFile f]} |}.

Definition jwt (token secret : string) : option string :=
  if String.eqb secret "secret" then
    if String.eqb token "token-u1" then Some "u1"
    else if String.eqb token "token-u2" then Some "u2"
    else None
  else None.

Definition remuxed : bytes := [Byte.x66; Byte.x74; Byte.x79; Byte.x70].

(** A host on which the probe exits with [probe_exit] and reports
    1920 by 1080, and the remux exits with [remux_exit], writing its output
    file when that is zero. *)
Definition tools (probe_exit remux_exit : Z) (argv : list string) : ProcOutcome :=
  match argv with
  | "ffprobe" :: _ =>
      {| exit_code := Some probe_exit; signal := None;
         out_text := "streams: 1920x1080";
         err_text := (if probe_exit =? 0 then "" else "Invalid data found");
         writes := [] |}
  | _ =>
      {| exit_code := Some remux_exit; signal := None;
         out_text := "";
         err_text := (if remux_exit =? 0 then "" else "moov atom not found");
         writes := (if remux_exit =? 0
                    then [(List.last argv "", remuxed)] else []) |}
  end.

Definition env_of (probe_exit remux_exit : Z) (reject : option string)
  (fill : Byte.byte) : Env :=
  {| jwt_subject := jwt;
     exec := tools probe_exit remux_exit;
     probe_dims := fun _ => Dims (JS.of_Z 1920) (JS.of_Z 1080);
     s3_reject := fun _ _ => reject;
     entropy := fun _ => fill |}.

(** Everything works. *)
Definition env_ok : Env := env_of 0 0 None Byte.xab.
(** The probe exits with code 1. *)
Definition env_probe_fails : Env := env_of 1 0 None Byte.xab.
(** The remux exits with code 1. *)
Definition env_remux_fails : Env := env_of 0 1 None Byte.xab.
(** The object store rejects the write. *)
Definition env_store_rejects : Env := env_of 0 0 (Some "AccessDenied") Byte.x11.

End Sample.

(** The outcome of the stages after validation, by cases on what the tools
    and the object store did. *)
Inductive Stage : Type :=
| ProbeThrew (e : exn)
| RemuxThrew
| ProcessedMissing
| StoreRejected (msg : string)
| Completed (data : bytes).

Definition stage_of (env : Env) (cfg : ApiConfig) (v : string) (f : File)
  (w : World) : Stage :=
  let temp := tempFilePath_of v in
  let o1 := exec env (ffprobe_argv temp) in
  let o2 := exec env (ffmpeg_argv temp (processed_path_of v)) in
  let d3 := apply_writes (writes o2)
              (apply_writes (writes o1) (<[temp := payload f]> (disk w))) in
  let thrown :=
    if bool_decide (exit_code o1 = Some 0) then
      match probe_dims env (out_text o1) with
      | Dims _ _ => None
      | BadJson msg => Some (SyntaxError msg)
      | NoStream msg => Some (TypeError msg)
      end
    else None in
  match thrown with
  | Some e => ProbeThrew e
  | None =>
      if bool_decide (exit_code o2 ≠ Some 0) then RemuxThrew
      else match d3 !! processed_path_of v with
           | None => ProcessedMissing
           | Some data =>
               match s3_reject env (s3Bucket cfg)
                       (key_of (ratio_of env v) (randomBytes env 32)) with
               | Some msg => StoreRejected msg
               | None => Completed data
               end
           end
  end.

(** The Staging File path of the run serving a request. *)
Definition staging_path (req : Request) : option string :=
  tempFilePath_of <$> params_videoId req.

(** The Processed File path of the run serving a request. *)
Definition processed_path (req : Request) : option string :=
  processed_path_of <$> params_videoId req.

(** ** The thumbnail handlers *)

(** A [Response] built from raw bytes and a header object. *)
Record RawResponse : Type := {
  raw_status : Z;
  raw_body : bytes;
  raw_headers : list (string * string);
}.

(** [10 << 20], the upload limit both thumbnail handlers declare. *)
Definition MAX_UPLOAD_SIZE : Z := JS.shl 10 20.

Definition with_thumbnailURL (video : Video) (url : string) : Video :=
  {| id := id video; userID := userID video;
     videoURL := videoURL video; thumbnailURL := Some url |}.

(** *** Thumbnails kept in a process-wide map *)

Module InMemory.

Record Thumbnail : Type := { data : bytes; mediaType : string }.

(** The world together with the module-level [videoThumbnails] map. *)
Record State : Type := {
  world : World;
  videoThumbnails : gmap string Thumbnail;
}.

(** The configuration with the port the thumbnail URL is built from, as the
    text the template literal inserts. *)
Record Config : Type := { api : ApiConfig; port : string }.

Definition MS (A : Type) : Type := State -> result A * State.

Definition retS {A} (a : A) : MS A := fun s => (Return a, s).
Definition throwS {A} (e : exn) : MS A := fun s => (Throw e, s).
Definition bindS {A B} (c : MS A) (k : A -> MS B) : MS B :=
  fun s =>
    match c s with
    | (Return a, s') => k a s'
    | (Throw e, s') => (Throw e, s')
    end.

(** A computation on the world, run inside the larger state. *)
Definition in_world {A} (c : M A) : MS A :=
  fun s =>
    let r := c (world s) in
    (r.1, {| world := r.2; videoThumbnails := videoThumbnails s |}).

Notation "x <~ c ;; k" := (bindS c (fun x => k))
  (at level 100, c at next level, right associativity).

(** [videoThumbnails.get(videoId)] *)
Definition thumbnails_get (videoId : string) : MS (option Thumbnail) :=
  fun s => (Return (videoThumbnails s !! videoId), s).

(** [videoThumbnails.set(videoId, thumbnail)] *)
Definition thumbnails_set (videoId : string) (t : Thumbnail) : MS unit :=
  fun s =>
    (Return tt,
     {| world := world s;
        videoThumbnails := <[videoId := t]> (videoThumbnails s) |}).

Definition handlerGetThumbnail (req : Request) : MS RawResponse :=
  videoId <~ match params_videoId req with
             | Some v =>
                 if JS.truthy (Some v) then retS v
                 else throwS (BadRequestError "Invalid video ID")
             | None => throwS (BadRequestError "Invalid video ID")
             end ;;
  found <~ in_world (getVideo videoId) ;;
  _ <~ match found with
       | Some _ => retS tt
       | None => throwS (NotFoundError "Couldn't find video")
       end ;;
  cached <~ thumbnails_get videoId ;;
  thumbnail <~ match cached with
               | Some t => retS t
               | None => throwS (NotFoundError "Thumbnail not found")
               end ;;
  retS {| raw_status := 200;
          raw_body := data thumbnail;
          raw_headers := [("Content-Type", mediaType thumbnail);
                          ("Cache-Control", "no-store")] |}.

Definition thumbnail_url (cfg : Config) (videoId : string) : string :=
  "http://localhost:" +:+ port cfg +:+ "/api/thumbnails/" +:+ videoId.

Definition handlerUploadThumbnail (env : Env) (cfg : Config) (req : Request)
  : MS Response :=
  videoId <~ match params_videoId req with
             | Some v =>
                 if JS.truthy (Some v) then retS v
                 else throwS (BadRequestError "Invalid video ID")
             | None => throwS (BadRequestError "Invalid video ID")
             end ;;
  token <~ in_world (getBearerToken (headers req)) ;;
  userID' <~ in_world (validateJWT env token (jwtSecret (api cfg))) ;;
  image <~ match formData req !! "thumbnail" with
           | Some (FormFile f) => retS f
           | _ => throwS (BadRequestError "wrong file format")
           end ;;
  _ <~ (if size image >? MAX_UPLOAD_SIZE
        then throwS (BadRequestError "file exceeds upload limit")
        else retS tt) ;;
  let buf := payload image in
  found <~ in_world (getVideo videoId) ;;
  video <~ match found with
           | Some v => retS v
           | None => throwS (NotFoundError "cant find video")
           end ;;
  _ <~ (if bool_decide (userID video ≠ userID')
        then throwS (UserForbiddenError "user not authorized")
        else retS tt) ;;
  _ <~ thumbnails_set videoId {| data := buf; mediaType := "image/png" |} ;;
  let url := thumbnail_url cfg videoId in
  let video' := with_thumbnailURL video url in
  _ <~ in_world (updateVideo video') ;;
  retS (respondWithJSON 200 video').

End InMemory.

(** *** Thumbnails written to the assets directory *)

Module OnDisk.

Section Assets.

Variable env : Env.

(** The helpers of [./assets], which is not among the sources: the file
    extension of a media type, the path of an asset on disk and its URL. *)
Variable mediaTypeToExt : string -> string.
Variable getAssetDiskPath : ApiConfig -> string -> string.
Variable getAssetURL : ApiConfig -> string -> string.

Definition handlerUploadThumbnail (cfg : ApiConfig) (req : Request)
  : M Response :=
  videoId <- match params_videoId req with
             | Some v =>
                 if JS.truthy (Some v) then ret v
                 else throw (BadRequestError "Invalid video ID")
             | None => throw (BadRequestError "Invalid video ID")
             end ;;
  token <- getBearerToken (headers req) ;;
  userID' <- validateJWT env token (jwtSecret cfg) ;;
  found <- getVideo videoId ;;
  video <- match found with
           | Some v => ret v
           | None => throw (NotFoundError "cant find video")
           end ;;
  _ <- (if bool_decide (userID video ≠ userID')
        then throw (UserForbiddenError "user not authorized")
        else ret tt) ;;
  image <- match formData req !! "thumbnail" with
           | Some (FormFile f) => ret f
           | _ => throw (BadRequestError "wrong file format")
           end ;;
  _ <- (if size image >? MAX_UPLOAD_SIZE
        then throw (BadRequestError "file exceeds upload limit")
        else ret tt) ;;
  let mediaType := type image in
  _ <- (if negb (JS.truthy (Some mediaType))
        then throw (BadRequestError "media type missing")
        else ret tt) ;;
  let ext := mediaTypeToExt mediaType in
  let filename := videoId +:+ ext in
  let assetDiskPath := getAssetDiskPath cfg filename in
  _ <- Bun_write assetDiskPath image ;;
  let urlPath := getAssetURL cfg filename in
  let video' := with_thumbnailURL video urlPath in
  _ <- updateVideo video' ;;
  ret (respondWithJSON 200 video').

End Assets.

End OnDisk.

(** The label read off the exact fraction [w / h]. *)
Definition classify_exact (w h : Z) : string :=
  if (17 * h <=? 10 * w) && (10 * w <=? 18 * h) then "landscape"
  else if (5 * h <=? 10 * w) && (10 * w <=? 6 * h) then "portrait"
  else "other".

(** The file in the [thumbnail] field of the form, if there is one. *)
Definition thumbnail_of (req : Request) : option File :=
  match formData req !! "thumbnail" with
  | Some (FormFile f) => Some f
  | _ => None
  end.

(** ** Sample data for the thumbnail handlers *)

Module ThumbSample.

Definition image : File :=
  {| size := 3; type := "image/jpeg";
     payload := [Byte.xff; Byte.xd8; Byte.xff] |}.

Definition request (videoId token : string) (f : File) : Request :=
  {| params_videoId := Some videoId;
     headers := {| bearer := Some token |};
     formData := {["thumbnail" := FormFile f]} |}.

(** A request without credentials, as a browser fetching an image sends. *)
Definition fetch (videoId : string) : Request :=
  {| params_videoId := Some videoId;
     headers := {| bearer := None |};
     formData := ∅ |}.

Definition cfg : InMemory.Config :=
  {| InMemory.api := Sample.cfg; InMemory.port := "8091" |}.

Definition state : InMemory.State :=
  {| InMemory.world := Sample.world; InMemory.videoThumbnails := ∅ |}.

Definition mediaTypeToExt (mediaType : string) : string :=
  if String.eqb mediaType "image/png" then ".png"
  else if String.eqb mediaType "image/jpeg" then ".jpg"
  else ".bin".

Definition getAssetDiskPath (cfg : ApiConfig) (name : string) : string :=
  "./assets/" +:+ name.

Definition getAssetURL (cfg : ApiConfig) (name : string) : string :=
  "http://localhost:8091/assets/" +:+ name.

End ThumbSample.

(** The requirements of an upload: a record identifier, a valid token of the
    record's owner, and a file within the limit that declares a media
    type. *)
Definition asset_upload_accepts (env : Env) (cfg : ApiConfig) (req : Request)
  (w : World)
  (v : string) (video : Video) (f : File) : Prop :=
  params_videoId req = Some v ∧ v ≠ "" ∧
  db w !! v = Some video ∧
  principal_of env cfg req = Some (userID video) ∧
  thumbnail_of req = Some f ∧ size f <= MAX_UPLOAD_SIZE ∧ type f ≠ "".

(** ** Collaborators that fail *)

(** The persistence collaborator and the filesystem can fail for reasons of
    their own (a locked table, a full or read-only disk).  [Faults] says
    which calls of a run do: the error [getVideo] throws for an identifier,
    [Bun.write] for a path, [updateVideo] for a record, and
    [rm(path, { force: true })] for a path ([force] silences a missing path
    only).  A call that throws has changed nothing. *)
Record Faults : Type := {
  get_error : string -> option exn;
  write_error : string -> option exn;
  update_error : Video -> option exn;
  rm_error : string -> option exn;
}.

Definition no_faults : Faults :=
  {| get_error := fun _ => None; write_error := fun _ => None;
     update_error := fun _ => None; rm_error := fun _ => None |}.

(** The upload handler over collaborators that may fail: the statements of
    [handlerUploadVideo], with the four calls throwing what [Faults] says. *)
Module Fallible.

Section Handler.

Variable env : Env.
Variable faults : Faults.

Definition or_throw {A} (fault : option exn) (c : M A) : M A :=
  fun w =>
    match fault with
    | Some e => (Throw e, w)
    | None => c w
    end.

Definition getVideo (videoId : string) : M (option Video) :=
  or_throw (get_error faults videoId) (getVideo videoId).

Definition updateVideo (video : Video) : M unit :=
  or_throw (update_error faults video) (updateVideo video).

Definition Bun_write (path : string) (file : File) : M unit :=
  or_throw (write_error faults path) (Bun_write path file).

Definition rm_force (path : string) : M unit :=
  or_throw (rm_error faults path) (rm_force path).

Definition handlerUploadVideo (cfg : ApiConfig) (req : Request) : M Response :=
  videoId <- match params_videoId req with
             | Some v =>
                 if JS.truthy (Some v) then ret v
                 else throw (BadRequestError "invalid video id")
             | None => throw (BadRequestError "invalid video id")
             end ;;
  token <- getBearerToken (headers req) ;;
  userId <- validateJWT env token (jwtSecret cfg) ;;
  found <- getVideo videoId ;;
  video <- match found with
           | Some v => ret v
           | None => throw (NotFoundError "video not found")
           end ;;
  _ <- (if bool_decide (userID video ≠ userId)
        then throw (UserForbiddenError "user not authorized")
        else ret tt) ;;
  file <- match formData req !! "video" with
          | Some (FormFile f) => ret f
          | _ => throw (BadRequestError "data is not a file")
          end ;;
  _ <- (if size file >? MAX_UPLOAD_LIMIT
        then throw (BadRequestError "file exceeds upload limit (1GB)")
        else ret tt) ;;
  let mediaType := type file in
  _ <- (if bool_decide (mediaType ≠ "video/mp4")
        then throw (BadRequestError "wrong media type")
        else ret tt) ;;
  let tempFilePath := tempFilePath_of videoId in
  _ <- Bun_write tempFilePath file ;;
  ratio <- getVideoAspectRatio env tempFilePath ;;
  let key := key_of ratio (randomBytes env 32) in
  tempProcessedFilePath <- processVideoForFastStart env tempFilePath ;;
  _ <- s3_write env (s3Bucket cfg) key tempProcessedFilePath mediaType ;;
  let video' := with_videoURL video (url_of cfg key) in
  _ <- updateVideo video' ;;
  _ <- rm_force tempFilePath ;;
  ret (respondWithJSON 200 video').

End Handler.

Definition run (env : Env) (faults : Faults) (cfg : ApiConfig) (req : Request)
  (w : World) : result Response * World :=
  handlerUploadVideo env faults cfg req w.

End Fallible.

Module FaultSample.

(** The table refuses every update. *)
Definition table_locked : Faults :=
  {| get_error := fun _ => None; write_error := fun _ => None;
     update_error := fun _ => Some (Error "database is locked");
     rm_error := fun _ => None |}.

(** The temp file cannot be removed. *)
Definition rm_denied : Faults :=
  {| get_error := fun _ => None; write_error := fun _ => None;
     update_error := fun _ => None;
     rm_error := fun _ => Some (SystemError "EPERM") |}.

End FaultSample.

(** * Properties *)

(** ** Validation *)

Lemma first_failure_app env cfg req w l1 l2 :
  first_failure env cfg req w (l1 ++ l2)%list =
    match first_failure env cfg req w l1 with
    | Some e => Some e
    | None => first_failure env cfg req w l2
    end.
Proof.
  induction l1 as [|c l1 IH]; simpl; [done|].
  by destruct (failure env cfg req w c).
Qed.

(** A request that fails a check is answered with the error of the first
    failing check, and the world is left as it was. *)
Lemma run_validation_failure env cfg req w e :
  first_failure env cfg req w handler_order = Some e ->
  run env cfg req w = (Throw e, w).
Proof.
  unfold run, handlerUploadVideo, handler_order, first_failure, failure,
    record_of, principal_of, file_of, bind, getBearerToken, validateJWT,
    getVideo, ret, throw.
  destruct req as [[v|] [[tok|]] form]; simpl; try congruence.
  - destruct (negb (v =? "")%string); simpl; [|congruence].
    destruct (jwt_subject env tok (jwtSecret cfg)) as [user|]; simpl; [|congruence].
    destruct (db w !! v) as [video|]; simpl; [|congruence].
    destruct (bool_decide (userID video ≠ user)); simpl; [congruence|].
    destruct (form !! "video") as [[s|f]|]; simpl; try congruence.
    destruct (size f >? MAX_UPLOAD_LIMIT); simpl; [congruence|].
    destruct (bool_decide (type f ≠ "video/mp4")); simpl; congruence.
  - destruct (negb (v =? "")%string); simpl; congruence.
Qed.

(** A request that passes every check continues with the staging write. *)
Lemma run_validated env cfg req w :
  first_failure env cfg req w handler_order = None ->
  ∃ v video f,
    params_videoId req = Some v ∧ db w !! v = Some video ∧
    file_of req = Some f ∧ principal_of env cfg req = Some (userID video) ∧
    size f <= MAX_UPLOAD_LIMIT ∧ type f = "video/mp4" ∧
    run env cfg req w = after_validation env cfg v video f w.
Proof.
  unfold run, handlerUploadVideo, handler_order, first_failure, failure,
    record_of, principal_of, file_of, bind, getBearerToken, validateJWT,
    getVideo, ret, throw.
  destruct req as [[v|] [[tok|]] form]; simpl; try congruence.
  - destruct (negb (v =? "")%string); simpl; [|congruence].
    destruct (jwt_subject env tok (jwtSecret cfg)) as [user|]; simpl; [|congruence].
    destruct (db w !! v) as [video|] eqn:Hv; simpl; [|congruence].
    destruct (bool_decide (userID video ≠ user)) eqn:Hu; simpl; [congruence|].
    destruct (form !! "video") as [[s|f]|]; simpl; try congruence.
    destruct (size f >? MAX_UPLOAD_LIMIT) eqn:Hs; simpl; [congruence|].
    destruct (bool_decide (type f ≠ "video/mp4")) eqn:Ht; simpl; [congruence|].
    intros _. exists v, video, f.
    apply bool_decide_eq_false in Hu, Ht.
    repeat split; try done.
    + f_equal. symmetry. by apply dec_stable.
    + lia.
    + by apply dec_stable.
  - destruct (negb (v =? "")%string); simpl; congruence.
Qed.

(** ** The stages after validation *)

Lemma apply_writes_preserves ws (d : gmap string bytes) k :
  is_Some (d !! k) -> is_Some (apply_writes ws d !! k).
Proof.
  revert d. induction ws as [|[k' b] ws IH]; intros d Hd; simpl; [done|].
  apply IH. destruct (decide (k' = k)) as [->|Hne].
  - rewrite lookup_insert_eq. eauto.
  - by rewrite lookup_insert_ne.
Qed.

Lemma apply_writes_written ws (d : gmap string bytes) k :
  k ∈ ws.*1 -> is_Some (apply_writes ws d !! k).
Proof.
  revert d. induction ws as [|[k' b] ws IH]; intros d Hk; simpl in *.
  - by apply elem_of_nil in Hk.
  - apply elem_of_cons in Hk as [->|Hk].
    + apply apply_writes_preserves. rewrite lookup_insert_eq. eauto.
    + by apply IH.
Qed.

Lemma after_validation_cases env cfg v video f w :
  let temp := tempFilePath_of v in
  let o1 := exec env (ffprobe_argv temp) in
  let o2 := exec env (ffmpeg_argv temp (processed_path_of v)) in
  let d2 := apply_writes (writes o1) (<[temp := payload f]> (disk w)) in
  let d3 := apply_writes (writes o2) d2 in
  let key := key_of (ratio_of env v) (randomBytes env 32) in
  let video' := with_videoURL video (url_of cfg key) in
  after_validation env cfg v video f w =
    match stage_of env cfg v f w with
    | ProbeThrew e => (Throw e, {| db := db w; disk := d2; store := store w |})
    | RemuxThrew =>
        (Throw (Error "[object ReadableStream]"),
         {| db := db w; disk := d3; store := store w |})
    | ProcessedMissing =>
        (Throw (SystemError "ENOENT"), {| db := db w; disk := d3; store := store w |})
    | StoreRejected msg =>
        (Throw (S3Error msg), {| db := db w; disk := d3; store := store w |})
    | Completed data =>
        (Return (respondWithJSON 200 video'),
         {| db := match db w !! id video with
                  | Some _ => <[id video := video']> (db w)
                  | None => db w
                  end;
            disk := delete temp d3;
            store := <[(s3Bucket cfg, key) :=
                         {| content := data; contentType := type f |}]> (store w) |})
    end.
Proof.
  intros temp o1 o2 d2 d3 key video'.
  subst key video' d3 d2 o2 o1 temp.
  unfold after_validation, stage_of, getVideoAspectRatio, processVideoForFastStart,
    s3_write, updateVideo, rm_force, Bun_write, Bun_spawn, text, bind, ret, throw,
    set_disk, set_db, set_store, processed_path_of, ratio_of; simpl.
  destruct (bool_decide (exit_code (exec env (ffprobe_argv _)) = Some 0)); simpl.
  - destruct (probe_dims env _); simpl; try done.
    destruct (bool_decide (exit_code (exec env (ffmpeg_argv _ _)) ≠ Some 0));
      simpl; [done|].
    destruct (apply_writes _ _ !! _); simpl; [|done].
    by destruct (s3_reject env _ _).
  - destruct (bool_decide (exit_code (exec env (ffmpeg_argv _ _)) ≠ Some 0));
      simpl; [done|].
    destruct (apply_writes _ _ !! _); simpl; [|done].
    by destruct (s3_reject env _ _).
Qed.

(** Reading [stage_of]: which stage stopped the run and why. *)
Lemma stage_of_inv env cfg v f w :
  match stage_of env cfg v f w with
  | ProbeThrew e => kind_of e = ToolFailure ∧ probe_passes env v = false
  | RemuxThrew => probe_passes env v = true ∧ remux_passes env v = false
  | ProcessedMissing => probe_passes env v = true ∧ remux_passes env v = false
  | StoreRejected msg =>
      probe_passes env v = true ∧
      s3_reject env (s3Bucket cfg) (key_of (ratio_of env v) (randomBytes env 32))
        = Some msg
  | Completed _ =>
      probe_passes env v = true ∧
      s3_reject env (s3Bucket cfg) (key_of (ratio_of env v) (randomBytes env 32))
        = None
  end.
Proof.
  unfold stage_of, probe_passes, remux_passes.
  set (o1 := exec env (ffprobe_argv _)).
  set (o2 := exec env (ffmpeg_argv _ _)).
  set (d3 := apply_writes (writes o2) _).
  assert (d3 !! processed_path_of v = None ->
          bool_decide (processed_path_of v ∈ (writes o2).*1) = false) as Hmiss.
  { intros Hnone. apply bool_decide_eq_false. intros Hin.
    apply (apply_writes_written _ (apply_writes (writes o1)
             (<[tempFilePath_of v := payload f]> (disk w)))) in Hin as [data Hd].
    fold d3 in Hd. congruence. }
  destruct (bool_decide (exit_code o1 = Some 0));
    [destruct (probe_dims env (out_text o1)); [|done|done]|].
  all: destruct (bool_decide (exit_code o2 ≠ Some 0)) eqn:Hx;
    [split; [done|]; apply bool_decide_eq_true in Hx;
     by rewrite bool_decide_eq_false_2|].
  all: destruct (d3 !! processed_path_of v) eqn:Hd;
    [|split; [done|]; by rewrite (Hmiss eq_refl), andb_false_r].
  all: by destruct (s3_reject env _ _).
Qed.

(** ** Cleanup of the temporary files *)

(** C1, as amended.  The Staging File is removed before a successful outcome
    is returned.  When a run fails after its validations passed, nothing is
    cleaned up: the Staging File is still on disk when the error reaches the
    caller. *)
Theorem staging_file_removed_on_success_only env cfg req w v :
  params_videoId req = Some v ->
  (∀ resp, (run env cfg req w).1 = Return resp ->
           disk (run env cfg req w).2 !! tempFilePath_of v = None) ∧
  (∀ e, (run env cfg req w).1 = Throw e ->
        first_failure env cfg req w handler_order = None ->
        is_Some (disk (run env cfg req w).2 !! tempFilePath_of v)).
Proof.
  intros Hv.
  destruct (first_failure env cfg req w handler_order) as [e0|] eqn:Hff.
  - rewrite (run_validation_failure _ _ _ _ _ Hff); simpl. split; [done|done].
  - destruct (run_validated _ _ _ _ Hff) as (v' & video & f & Hv' & _ & _ & _ & _ & _ & Hrun).
    assert (v' = v) as -> by congruence.
    rewrite Hrun, after_validation_cases.
    assert (is_Some (<[tempFilePath_of v := payload f]> (disk w) !! tempFilePath_of v))
      as Hstaged by (rewrite lookup_insert_eq; eauto).
    destruct (stage_of env cfg v f w); simpl; (split; [try done|]);
      intros; try done; try by repeat apply apply_writes_preserves.
    by rewrite lookup_delete_eq.
Qed.

Lemma staging_file_removed_on_success_only_witness :
  disk (run Sample.env_ok Sample.cfg
          (Sample.request "v1" "token-u1" Sample.clip) Sample.world).2
    !! tempFilePath_of "v1" = None ∧
  is_Some (disk (run Sample.env_remux_fails Sample.cfg
                   (Sample.request "v1" "token-u1" Sample.clip) Sample.world).2
             !! tempFilePath_of "v1").
Proof.
  split.
  - eapply (staging_file_removed_on_success_only Sample.env_ok Sample.cfg
              (Sample.request "v1" "token-u1" Sample.clip) Sample.world "v1");
      vm_compute; reflexivity.
  - eapply (staging_file_removed_on_success_only Sample.env_remux_fails Sample.cfg
              (Sample.request "v1" "token-u1" Sample.clip) Sample.world "v1");
      vm_compute; reflexivity.
Defined.

(** C1, as stated, fails: when the object store rejects the write the run
    returns the error while both temporary files are still on disk. *)
Lemma temp_files_left_after_rejected_upload :
  let r := run Sample.env_store_rejects Sample.cfg
             (Sample.request "v1" "token-u1" Sample.clip) Sample.world in
  r.1 = Throw (S3Error "AccessDenied") ∧
  disk r.2 !! "/tmp/v1.mp4" = Some (payload Sample.clip) ∧
  disk r.2 !! "/tmp/v1.mp4.processed" = Some Sample.remuxed ∧
  ¬ cleaned_up "v1" r.2.
Proof.
  repeat split; try (vm_compute; reflexivity).
  intros [H _]. vm_compute in H. discriminate.
Qed.

(** ** The probe step *)

(** On any exit code other than zero (or none, when the probe was killed by a
    signal) [getVideoAspectRatio] returns [undefined] and throws nothing. *)
Lemma getVideoAspectRatio_failed_probe env filePath w :
  exit_code (exec env (ffprobe_argv filePath)) ≠ Some 0 ->
  (getVideoAspectRatio env filePath w).1 = Return None.
Proof.
  intros Hx. unfold getVideoAspectRatio, bind, Bun_spawn, ret; simpl.
  by rewrite bool_decide_eq_false_2.
Qed.

(** C2, evaluated on a run whose probe exits with code 1: the handler answers
    200, stores the artifact under a key whose label is the text
    [undefined], rewrites the record's locator, and leaves the Processed File
    on disk. *)
Lemma failed_probe_run_completes :
  let r := run Sample.env_probe_fails Sample.cfg
             (Sample.request "v1" "token-u1" Sample.clip) Sample.world in
  let url := "https://tubely.s3.eu-west-1.amazonaws.com/undefined/"
               +:+ JS.toHex (replicate 32 Byte.xab) +:+ ".mp4" in
  exit_code (exec Sample.env_probe_fails (ffprobe_argv (tempFilePath_of "v1")))
    = Some 1 ∧
  r.1 = Return (respondWithJSON 200 (with_videoURL Sample.v1 url)) ∧
  db r.2 !! "v1" = Some (with_videoURL Sample.v1 url) ∧
  db Sample.world !! "v1" = Some Sample.v1 ∧
  videoURL Sample.v1 ≠ Some url ∧
  is_Some (disk r.2 !! processed_path_of "v1").
Proof.
  repeat split; try (vm_compute; reflexivity).
  - vm_compute. discriminate.
  - vm_compute. eauto.
Qed.

(** ** The locator and the remote upload *)

(** C5.  A run changes the videos table only when the object store accepted
    the write: the object is then stored under the run's key and the answer is
    the record carrying the new locator.  When the store rejects the write the
    table and the store are left as they were and the run fails; if the
    stages before the upload went through, it fails with the store's
    rejection, an Upload-Failure. *)
Theorem locator_written_only_after_upload env cfg req w :
  (db (run env cfg req w).2 = db w ∨
   ∃ v video f data,
     params_videoId req = Some v ∧ db w !! v = Some video ∧
     file_of req = Some f ∧
     s3_reject env (s3Bucket cfg) (key_of (ratio_of env v) (randomBytes env 32))
       = None ∧
     store (run env cfg req w).2
       !! (s3Bucket cfg, key_of (ratio_of env v) (randomBytes env 32))
       = Some {| content := data; contentType := type f |} ∧
     (run env cfg req w).1 =
       Return (respondWithJSON 200
                 (with_videoURL video
                    (url_of cfg (key_of (ratio_of env v) (randomBytes env 32)))))) ∧
  (∀ v msg,
     params_videoId req = Some v ->
     s3_reject env (s3Bucket cfg) (key_of (ratio_of env v) (randomBytes env 32))
       = Some msg ->
     db (run env cfg req w).2 = db w ∧
     store (run env cfg req w).2 = store w ∧
     ∃ e, (run env cfg req w).1 = Throw e) ∧
  (∀ v msg,
     params_videoId req = Some v ->
     s3_reject env (s3Bucket cfg) (key_of (ratio_of env v) (randomBytes env 32))
       = Some msg ->
     first_failure env cfg req w handler_order = None ->
     probe_passes env v = true -> remux_passes env v = true ->
     (run env cfg req w).1 = Throw (S3Error msg) ∧
     kind_of (S3Error msg) = UploadFailure).
Proof.
  destruct (first_failure env cfg req w handler_order) as [e0|] eqn:Hff.
  - rewrite (run_validation_failure _ _ _ _ _ Hff); simpl.
    split; [by left|]. split; [|done].
    intros v msg _ _. repeat split. by exists e0.
  - destruct (run_validated _ _ _ _ Hff)
      as (v & video & f & Hv & Hvideo & Hf & _ & _ & _ & Hrun).
    rewrite Hrun, after_validation_cases.
    pose proof (stage_of_inv env cfg v f w) as Hinv.
    assert (∀ v', params_videoId req = Some v' -> v' = v) as Hsame
      by (intros; congruence).
    destruct (stage_of env cfg v f w) as [e| | |msg0|data]; simpl.
    + split; [by left|]. split.
      * intros v' msg _ _. repeat split. by exists e.
      * intros v' msg Hv' _ _ Hp _. rewrite (Hsame _ Hv') in Hp.
        destruct Hinv; congruence.
    + split; [by left|]. split.
      * intros v' msg _ _. repeat split. by eexists.
      * intros v' msg Hv' _ _ _ Hr. rewrite (Hsame _ Hv') in Hr.
        destruct Hinv; congruence.
    + split; [by left|]. split.
      * intros v' msg _ _. repeat split. by eexists.
      * intros v' msg Hv' _ _ _ Hr. rewrite (Hsame _ Hv') in Hr.
        destruct Hinv; congruence.
    + split; [by left|]. split.
      * intros v' msg _ _. repeat split. by eexists.
      * intros v' msg Hv' Hrej _ _ _. rewrite (Hsame _ Hv') in Hrej.
        destruct Hinv as [_ Hinv]. split; [|done]. congruence.
    + destruct Hinv as [_ Hacc]. split; [|split].
      * right. exists v, video, f, data. repeat split; try done.
        by rewrite lookup_insert_eq.
      * intros v' msg Hv' Hrej. rewrite (Hsame _ Hv') in Hrej. congruence.
      * intros v' msg Hv' Hrej. rewrite (Hsame _ Hv') in Hrej. congruence.
Qed.

Lemma locator_written_only_after_upload_witness :
  let r := run Sample.env_store_rejects Sample.cfg
             (Sample.request "v1" "token-u1" Sample.clip) Sample.world in
  (db r.2 = db Sample.world ∧ store r.2 = store Sample.world ∧
   ∃ e, r.1 = Throw e) ∧
  r.1 = Throw (S3Error "AccessDenied") ∧
  kind_of (S3Error "AccessDenied") = UploadFailure.
Proof.
  pose proof (locator_written_only_after_upload Sample.env_store_rejects
                Sample.cfg (Sample.request "v1" "token-u1" Sample.clip)
                Sample.world) as (_ & Hkept & Hfails).
  split.
  - apply (Hkept "v1" "AccessDenied"); vm_compute; reflexivity.
  - apply (Hfails "v1" "AccessDenied"); vm_compute; reflexivity.
Defined.

(** ** The size ceiling and the order of the validations *)

Lemma MAX_UPLOAD_LIMIT_value : MAX_UPLOAD_LIMIT = 2 ^ 30.
Proof. reflexivity. Qed.

Lemma handler_order_split :
  handler_order = (access_checks ++ [CheckSize; CheckType])%list.
Proof. reflexivity. Qed.

(** The size check fails exactly on a file whose size is above the limit. *)
Lemma size_check_fails env cfg req w :
  failure env cfg req w CheckSize =
    Some (BadRequestError "file exceeds upload limit (1GB)") ↔
  ∃ f, file_of req = Some f ∧ size f > 2 ^ 30.
Proof.
  unfold failure. rewrite MAX_UPLOAD_LIMIT_value.
  destruct (file_of req) as [f|]; [|split; [done|by intros (? & [=] & _)]].
  destruct (size f >? 2 ^ 30) eqn:Hs.
  - split; [|done]. intros _. exists f. split; [done|]. lia.
  - split; [done|]. intros (f' & [= <-] & Hbig). lia.
Qed.

(** An error raised by the stages after validation is never a Bad-Request. *)
Lemma after_validation_not_bad_request env cfg v video f w msg :
  (after_validation env cfg v video f w).1 ≠ Throw (BadRequestError msg).
Proof.
  rewrite after_validation_cases.
  pose proof (stage_of_inv env cfg v f w) as Hinv.
  destruct (stage_of env cfg v f w) as [e| | | |]; simpl; try done.
  intros [= ->]. by destruct Hinv.
Qed.

(** C6, as amended.  An upload whose declared size exceeds 2^30 bytes makes
    the run fail with the world, and so the filesystem, left exactly as it
    was: no Staging File is written.  The failure is the Bad-Request of the
    size check when the request passes the checks that the handler runs
    first (identifier, credential, token, record, owner, file field), and
    the error of the first of those checks that fails otherwise. *)
Theorem oversized_upload_fails_before_staging env cfg req w f :
  file_of req = Some f -> size f > 2 ^ 30 ->
  (run env cfg req w).2 = w ∧
  disk (run env cfg req w).2 = disk w ∧
  (∃ e, (run env cfg req w).1 = Throw e) ∧
  (first_failure env cfg req w access_checks = None ->
   (run env cfg req w).1 =
     Throw (BadRequestError "file exceeds upload limit (1GB)") ∧
   kind_of (BadRequestError "file exceeds upload limit (1GB)") = BadRequest) ∧
  (∀ e, first_failure env cfg req w access_checks = Some e ->
        (run env cfg req w).1 = Throw e).
Proof.
  intros Hf Hbig.
  assert (failure env cfg req w CheckSize =
            Some (BadRequestError "file exceeds upload limit (1GB)")) as Hsize
    by (apply size_check_fails; eauto).
  assert (∃ e, first_failure env cfg req w handler_order = Some e ∧
               (first_failure env cfg req w access_checks = None ->
                e = BadRequestError "file exceeds upload limit (1GB)") ∧
               (∀ e', first_failure env cfg req w access_checks = Some e' ->
                      e = e'))
    as (e & He & Hkind & Hearly).
  { rewrite handler_order_split, first_failure_app.
    destruct (first_failure env cfg req w access_checks) as [e|].
    - exists e. split; [done|]. split; [intros [=]|]. by intros e' [= ->].
    - eexists. split; [cbn [first_failure]; by rewrite Hsize|].
      split; [done|]. intros e' [=]. }
  rewrite (run_validation_failure _ _ _ _ _ He); simpl.
  split; [done|]. split; [done|]. split; [eauto|]. split.
  - intros Hnone. by rewrite (Hkind Hnone).
  - intros e' He'. by rewrite (Hearly e' He').
Qed.

Lemma oversized_upload_fails_before_staging_witness :
  let r := run Sample.env_ok Sample.cfg
             (Sample.request "v1" "token-u1" Sample.huge) Sample.world in
  r.2 = Sample.world ∧ disk r.2 = disk Sample.world ∧
  r.1 = Throw (BadRequestError "file exceeds upload limit (1GB)").
Proof.
  pose proof (oversized_upload_fails_before_staging Sample.env_ok Sample.cfg
                (Sample.request "v1" "token-u1" Sample.huge) Sample.world
                Sample.huge) as H.
  destruct H as (Hw & Hd & _ & Hbad & _);
    [reflexivity | vm_compute; reflexivity |].
  split; [exact Hw|]. split; [exact Hd|].
  apply Hbad. vm_compute; reflexivity.
Defined.

(** C6, as stated, fails: an upload of more than 2^30 bytes sent by a
    principal who does not own the record is answered Forbidden, not
    Bad-Request; the size check is never reached. *)
Lemma oversized_upload_by_stranger_is_forbidden :
  let req := Sample.request "v1" "token-u2" Sample.huge in
  file_of req = Some Sample.huge ∧ size Sample.huge > 2 ^ 30 ∧
  (run Sample.env_ok Sample.cfg req Sample.world).1
    = Throw (UserForbiddenError "user not authorized") ∧
  kind_of (UserForbiddenError "user not authorized") ≠ BadRequest.
Proof.
  split; [reflexivity|]. split; [vm_compute; reflexivity|].
  split; [vm_compute; reflexivity|discriminate].
Qed.

(** C8, as amended.  The handler checks, in this order: the record
    identifier, the bearer credential, the token, the record's existence, its
    owner, that the form field is a file, the declared size, the declared
    media type.  A request failing any of them is answered with the error of
    the first one it fails and nothing is staged or changed; a request
    passing all of them goes on to the staging write. *)
Theorem validations_run_in_handler_order env cfg req w :
  match first_failure env cfg req w handler_order with
  | Some e => run env cfg req w = (Throw e, w)
  | None =>
      ∃ v video f,
        params_videoId req = Some v ∧ db w !! v = Some video ∧
        file_of req = Some f ∧
        run env cfg req w = after_validation env cfg v video f w
  end.
Proof.
  destruct (first_failure env cfg req w handler_order) as [e|] eqn:Hff.
  - by apply run_validation_failure.
  - destruct (run_validated _ _ _ _ Hff) as (v & video & f & ? & ? & ? & _ & _ & _ & ?).
    by exists v, video, f.
Qed.

(** C8, as stated, fails: for an oversized upload aimed at a record that does
    not exist, the order size, type, record would answer with the size
    check's Bad-Request, while the handler answers Not-Found. *)
Lemma record_is_resolved_before_size_check :
  let req := Sample.request "v9" "token-u1" Sample.huge in
  first_failure Sample.env_ok Sample.cfg req Sample.world described_order
    = Some (BadRequestError "file exceeds upload limit (1GB)") ∧
  (run Sample.env_ok Sample.cfg req Sample.world).1
    = Throw (NotFoundError "video not found").
Proof. split; vm_compute; reflexivity. Qed.

(** C10.  The limit is 2^30 and the comparison is strict: the run fails with
    the size check's Bad-Request exactly when the request reached that check
    with a file of more than 2^30 bytes.  A file of exactly 2^30 bytes passes
    the check, is never answered with that error, and is staged when the
    other checks pass. *)
Theorem size_limit_is_inclusive env cfg req w :
  MAX_UPLOAD_LIMIT = 2 ^ 30 ∧
  ((run env cfg req w).1 =
     Throw (BadRequestError "file exceeds upload limit (1GB)") ↔
   first_failure env cfg req w access_checks = None ∧
   ∃ f, file_of req = Some f ∧ size f > 2 ^ 30) ∧
  (∀ f, file_of req = Some f -> size f = 2 ^ 30 ->
     failure env cfg req w CheckSize = None ∧
     (run env cfg req w).1 ≠
       Throw (BadRequestError "file exceeds upload limit (1GB)") ∧
     (first_failure env cfg req w access_checks = None ->
      type f = "video/mp4" ->
      ∃ v video, run env cfg req w = after_validation env cfg v video f w)).
Proof.
  assert ((run env cfg req w).1 =
            Throw (BadRequestError "file exceeds upload limit (1GB)") ↔
          first_failure env cfg req w access_checks = None ∧
          ∃ f, file_of req = Some f ∧ size f > 2 ^ 30) as Hiff.
  { rewrite <- (size_check_fails env cfg req w).
    destruct (first_failure env cfg req w handler_order) as [e|] eqn:Hff.
    - rewrite (run_validation_failure _ _ _ _ _ Hff); cbn [fst].
      revert Hff. rewrite handler_order_split, first_failure_app.
      destruct (first_failure env cfg req w access_checks) as [e'|] eqn:Hacc.
      + intros [= ->]. split; [|by intros [[=] _]].
        intros [= ->]. exfalso. revert Hacc.
        unfold access_checks, first_failure, failure, record_of, principal_of,
          file_of.
        destruct (JS.truthy _); [|done].
        destruct (bearer _); [|done].
        destruct (jwt_subject _ _ _); [|done].
        destruct (params_videoId req); [|destruct (formData req !! "video") as [[]|]; done].
        destruct (db w !! _); [|done].
        destruct (bool_decide _); [done|].
        destruct (formData req !! "video") as [[]|]; done.
      + cbn [first_failure]. destruct (failure env cfg req w CheckSize) as [e1|] eqn:Hsz.
        * intros [= ->]. split; [by intros [= ->]|]. by intros [_ [= ->]].
        * intros Hty. split; [|by intros [_ [=]]].
          intros [= ->]. revert Hty. unfold failure.
          destruct (file_of req); [|done]. by destruct (bool_decide _).
    - destruct (run_validated _ _ _ _ Hff) as (v & video & f & _ & _ & _ & _ & _ & _ & Hrun).
      rewrite Hrun. split.
      + intros Hbad. by apply after_validation_not_bad_request in Hbad.
      + intros [_ Hsz]. revert Hff.
        rewrite handler_order_split, first_failure_app.
        destruct (first_failure env cfg req w access_checks); [done|].
        cbn [first_failure]. by rewrite Hsz. }
  split; [reflexivity|]. split; [exact Hiff|].
  intros f Hf Hsize.
  assert (failure env cfg req w CheckSize = None) as Hpass.
  { unfold failure. rewrite Hf, MAX_UPLOAD_LIMIT_value.
    destruct (size f >? 2 ^ 30) eqn:Hgt; [lia|done]. }
  split; [exact Hpass|]. split.
  - rewrite Hiff. intros (_ & f' & Hf' & Hbig).
    assert (f' = f) as -> by congruence. lia.
  - intros Hacc Hty.
    assert (first_failure env cfg req w handler_order = None) as Hff.
    { rewrite handler_order_split, first_failure_app, Hacc.
      cbn [first_failure]. rewrite Hpass. unfold failure. rewrite Hf.
      by rewrite bool_decide_eq_false_2 by (by intros ?). }
    destruct (run_validated _ _ _ _ Hff) as (v & video & f' & _ & _ & Hf' & _ & _ & _ & Hrun).
    assert (f' = f) as -> by congruence. by exists v, video.
Qed.

Lemma size_limit_is_inclusive_witness :
  let req := Sample.request "v1" "token-u1" Sample.at_limit in
  failure Sample.env_ok Sample.cfg req Sample.world CheckSize = None ∧
  (run Sample.env_ok Sample.cfg req Sample.world).1 ≠
    Throw (BadRequestError "file exceeds upload limit (1GB)") ∧
  ∃ v video,
    run Sample.env_ok Sample.cfg req Sample.world =
      after_validation Sample.env_ok Sample.cfg v video Sample.at_limit
        Sample.world.
Proof.
  pose proof (size_limit_is_inclusive Sample.env_ok Sample.cfg
                (Sample.request "v1" "token-u1" Sample.at_limit) Sample.world)
    as (_ & _ & H).
  destruct (H Sample.at_limit) as (Hpass & Hnot & Hstaged);
    [reflexivity | reflexivity |].
  split; [exact Hpass|]. split; [exact Hnot|].
  apply Hstaged; vm_compute; reflexivity.
Defined.

(** ** Strings and paths *)

Lemma length_append s t :
  String.length (s +:+ t) = (String.length s + String.length t)%nat.
Proof. induction s as [|c s IH]; simpl; [done|]. by rewrite IH. Qed.

Lemma chars_append s t :
  String.list_ascii_of_string (s +:+ t) =
    (String.list_ascii_of_string s ++ String.list_ascii_of_string t)%list.
Proof. induction s as [|c s IH]; simpl; [done|]. by rewrite IH. Qed.

Lemma append_inv_tail s1 s2 t : s1 +:+ t = s2 +:+ t -> s1 = s2.
Proof.
  intros H. apply (f_equal String.list_ascii_of_string) in H.
  rewrite !chars_append in H. apply app_inv_tail in H.
  rewrite <- (String.string_of_list_ascii_of_string s1),
          <- (String.string_of_list_ascii_of_string s2).
  by rewrite H.
Qed.

Lemma split_no_slash s : no_slash s -> Posix.split s = [s].
Proof.
  unfold no_slash. induction s as [|c s IH]; simpl; [done|].
  intros Hno. apply not_elem_of_cons in Hno as [Hc Hs].
  destruct (Ascii.eqb_spec c Posix.sep) as [->|_]; [done|].
  by rewrite (IH Hs).
Qed.

Lemma last_char_append s t :
  t ≠ "" -> Posix.last_char (s +:+ t) = Posix.last_char t.
Proof.
  intros Ht. induction s as [|c s IH]; simpl; [done|].
  destruct (s +:+ t) eqn:Hst; [|done].
  destruct s; simpl in Hst; [done|discriminate].
Qed.

(** For an identifier without a separator the Staging File is
    [/tmp/<id>.mp4]. *)
Lemma tempFilePath_of_plain v :
  no_slash v -> tempFilePath_of v = "/tmp/" +:+ v +:+ ".mp4".
Proof.
  intros Hv. unfold tempFilePath_of, Posix.join.
  assert (v +:+ ".mp4" ≠ "") as Hne by (by destruct v).
  rewrite filter_cons_True by done.
  rewrite filter_cons_True by done.
  rewrite filter_nil.
  assert (no_slash (v +:+ ".mp4")) as Hseg.
  { unfold no_slash in *. rewrite chars_append. rewrite elem_of_app.
    intros [?|Hin]; [done|]. vm_compute in Hin.
    repeat (apply elem_of_cons in Hin as [Hin|Hin]; [discriminate|]).
    by apply elem_of_nil in Hin. }
  assert (∀ s, String.length s < 4 -> String.eqb (v +:+ ".mp4") s = false)%nat
    as Hshort.
  { intros s Hs. apply String.eqb_neq. intros Heq.
    apply (f_equal String.length) in Heq. rewrite length_append in Heq.
    simpl in Heq. lia. }
  unfold Posix.normalize. cbn [String.concat].
  change ("/tmp" +:+ "/" +:+ v +:+ ".mp4") with
    (String "/" (String "t" (String "m" (String "p" (String "/" (v +:+ ".mp4")))))).
  cbn [String.eqb Ascii.eqb Bool.eqb Posix.first_char].
  rewrite bool_decide_eq_true_2 by done.
  assert (Posix.last_char ("/tmp/" +:+ v +:+ ".mp4") = Some "4"%char) as Hlast
    by (by rewrite (last_char_append "/tmp/") by done;
        rewrite (last_char_append v ".mp4")).
  change ("/tmp/" +:+ v +:+ ".mp4") with
    (String "/" (String "t" (String "m" (String "p" (String "/" (v +:+ ".mp4"))))))
    in Hlast.
  rewrite Hlast.
  rewrite bool_decide_eq_false_2 by (by intros [=]).
  cbn [Posix.split Ascii.eqb Bool.eqb Posix.sep negb].
  rewrite (split_no_slash _ Hseg).
  cbn [Posix.normalizeString String.eqb Ascii.eqb Bool.eqb orb].
  rewrite !Hshort by (simpl; lia).
  cbn [orb rev app String.concat].
  destruct (String.eqb _ "") eqn:Hempty; [|done].
  apply String.eqb_eq in Hempty. discriminate.
Qed.

(** ** Names of the temporary files *)

Lemma append_assoc s t u : (s +:+ t) +:+ u = s +:+ t +:+ u.
Proof.
  induction s as [|c s IH]; [done|].
  change (String c ((s +:+ t) +:+ u) = String c (s +:+ t +:+ u)).
  by rewrite IH.
Qed.

(** C3, as amended.  Both temporary paths are derived from the record
    identifier alone: for identifiers without a separator they are
    [/tmp/<id>.mp4] and [/tmp/<id>.mp4.processed], so two runs use the same
    Staging File, and the same Processed File, exactly when they serve the
    same record identifier. *)
Theorem temp_paths_follow_record_id v1 v2 :
  no_slash v1 -> no_slash v2 ->
  tempFilePath_of v1 = "/tmp/" +:+ v1 +:+ ".mp4" ∧
  processed_path_of v1 = "/tmp/" +:+ v1 +:+ ".mp4" +:+ ".processed" ∧
  (tempFilePath_of v1 = tempFilePath_of v2 ↔ v1 = v2) ∧
  (processed_path_of v1 = processed_path_of v2 ↔ v1 = v2).
Proof.
  intros H1 H2. unfold processed_path_of.
  rewrite !tempFilePath_of_plain by done.
  assert ("/tmp/" +:+ v1 +:+ ".mp4" = "/tmp/" +:+ v2 +:+ ".mp4" -> v1 = v2)
    as Hinj.
  { intros Heq. apply (inj (String.append "/tmp/")) in Heq.
    by apply append_inv_tail in Heq. }
  split; [done|]. split.
  { by rewrite (append_assoc "/tmp/"), (append_assoc v1). }
  split; (split; [|by intros ->]); [done|].
  intros Heq. apply append_inv_tail in Heq. by apply Hinj.
Qed.

Lemma temp_paths_follow_record_id_witness :
  tempFilePath_of "v1" = "/tmp/v1.mp4" ∧
  processed_path_of "v1" = "/tmp/v1.mp4.processed" ∧
  (tempFilePath_of "v1" = tempFilePath_of "v2" ↔ "v1" = "v2") ∧
  (processed_path_of "v1" = processed_path_of "v2" ↔ "v1" = "v2").
Proof.
  apply (temp_paths_follow_record_id "v1" "v2"); vm_compute;
    intros Hin;
    repeat (apply elem_of_cons in Hin as [Hin|Hin]; [discriminate|]);
    by apply elem_of_nil in Hin.
Defined.

(** C3, as stated, fails: two different runs for the record [v1] (different
    uploads, different random bytes) have the same Staging File path and the
    same Processed File path, and the second run overwrites the file the first
    one left. *)
Lemma runs_for_one_record_share_paths :
  let req1 := Sample.request "v1" "token-u1" Sample.clip in
  let req2 := Sample.request "v1" "token-u1" Sample.other_clip in
  let env1 := Sample.env_of 0 0 (Some "AccessDenied") Byte.x11 in
  let env2 := Sample.env_of 0 0 (Some "AccessDenied") Byte.x22 in
  let w1 := (run env1 Sample.cfg req1 Sample.world).2 in
  let w2 := (run env2 Sample.cfg req2 w1).2 in
  req1 ≠ req2 ∧ randomBytes env1 32 ≠ randomBytes env2 32 ∧
  staging_path req1 = Some "/tmp/v1.mp4" ∧
  staging_path req2 = Some "/tmp/v1.mp4" ∧
  processed_path req1 = Some "/tmp/v1.mp4.processed" ∧
  processed_path req2 = Some "/tmp/v1.mp4.processed" ∧
  disk w1 !! "/tmp/v1.mp4" = Some (payload Sample.clip) ∧
  disk w2 !! "/tmp/v1.mp4" = Some (payload Sample.other_clip).
Proof.
  repeat split; try (vm_compute; reflexivity).
  - intros Heq. apply (f_equal (fun r => file_of r)) in Heq.
    vm_compute in Heq. discriminate.
  - vm_compute. discriminate.
Qed.

(** ** The remux step *)

(** On a non-zero exit code (or none) the remux adapter throws an [Error]
    whose message is the stringified stream object, whatever the process wrote
    to its diagnostic stream. *)
Lemma processVideoForFastStart_failed_remux env inFilePath w :
  exit_code (exec env (ffmpeg_argv inFilePath (inFilePath +:+ ".processed")))
    ≠ Some 0 ->
  (processVideoForFastStart env inFilePath w).1 =
    Throw (Error "[object ReadableStream]").
Proof.
  intros Hx. unfold processVideoForFastStart, bind, Bun_spawn, throw; simpl.
  by rewrite bool_decide_eq_true_2.
Qed.

(** C9, evaluated on a remux that exits with code 1 after writing
    [moov atom not found] to its diagnostic stream: the adapter throws once,
    and the error's message is [[object ReadableStream]], not the captured
    text. *)
Lemma failed_remux_error_drops_diagnostic :
  let o := exec Sample.env_remux_fails
             (ffmpeg_argv "/tmp/v1.mp4" "/tmp/v1.mp4.processed") in
  exit_code o = Some 1 ∧ err_text o = "moov atom not found" ∧
  (processVideoForFastStart Sample.env_remux_fails "/tmp/v1.mp4" Sample.world).1
    = Throw (Error "[object ReadableStream]") ∧
  (processVideoForFastStart Sample.env_remux_fails "/tmp/v1.mp4" Sample.world).1
    ≠ Throw (Error (err_text o)).
Proof.
  repeat split; try (vm_compute; reflexivity).
  vm_compute. discriminate.
Qed.

(** ** Storage keys *)

Lemma toHex_length bs : String.length (JS.toHex bs) = (2 * length bs)%nat.
Proof. induction bs as [|b bs IH]; simpl; [done|]. rewrite IH. lia. Qed.

Lemma hex_digit_is_hex n : JS.is_hex_digit (JS.hex_digit n) = true.
Proof.
  destruct n as [|p]; [done|].
  do 4 (destruct p as [p|p|]; try done).
Qed.

Lemma toHex_digits bs :
  Forall (fun c => JS.is_hex_digit c = true)
    (String.list_ascii_of_string (JS.toHex bs)).
Proof.
  induction bs as [|b bs IH]; simpl; [done|].
  repeat constructor; auto using hex_digit_is_hex.
Qed.

Lemma randomBytes_length env n : length (randomBytes env n) = n.
Proof. unfold randomBytes. by rewrite length_map, length_seq. Qed.

Lemma classify_label width height : classify width height ∈ labels.
Proof.
  unfold classify, labels.
  destruct (_ && _); [set_solver|]. destruct (_ && _); set_solver.
Qed.

(** C7, as amended.  The key under which a successful run stores the
    artifact, and which its locator ends with, is the probe's label, a slash,
    the lowercase hex encoding of 32 random bytes (256 bits, 64 digits) and
    [.mp4]; after a probe that exited with zero the label is one of
    [landscape], [portrait], [other]. *)
Theorem storage_key_shape env cfg req w resp :
  (run env cfg req w).1 = Return resp ->
  ∃ v,
    params_videoId req = Some v ∧
    let random := randomBytes env 32 in
    let key := JS.template (ratio_of env v) +:+ "/" +:+ JS.toHex random +:+ ".mp4" in
    length random = 32%nat ∧
    String.length (JS.toHex random) = 64%nat ∧
    Forall (fun c => JS.is_hex_digit c = true)
      (String.list_ascii_of_string (JS.toHex random)) ∧
    is_Some (store (run env cfg req w).2 !! (s3Bucket cfg, key)) ∧
    videoURL (body resp) = Some (url_of cfg key) ∧
    (exit_code (exec env (ffprobe_argv (tempFilePath_of v))) = Some 0 ->
     key_form 32 key).
Proof.
  destruct (first_failure env cfg req w handler_order) as [e0|] eqn:Hff.
  { by rewrite (run_validation_failure _ _ _ _ _ Hff). }
  destruct (run_validated _ _ _ _ Hff)
    as (v & video & f & Hv & _ & _ & _ & _ & _ & Hrun).
  rewrite Hrun, after_validation_cases.
  pose proof (stage_of_inv env cfg v f w) as Hinv.
  destruct (stage_of env cfg v f w) as [| | | |data]; cbn [fst snd]; try done.
  intros [= <-]. exists v. split; [done|]. cbv zeta. cbn [store body videoURL].
  pose proof (randomBytes_length env 32) as Hlen.
  split; [done|]. split; [by rewrite toHex_length, Hlen|].
  split; [apply toHex_digits|].
  split; [unfold key_of; rewrite lookup_insert_eq; eauto|].
  split; [done|].
  intros Hexit. destruct Hinv as [Hprobe _].
  unfold probe_passes in Hprobe. unfold ratio_of.
  rewrite bool_decide_eq_true_2 in Hprobe |- * by done.
  destruct (probe_dims env _) as [width height| |]; try done.
  exists (classify width height), (randomBytes env 32), "mp4".
  split; [apply classify_label|]. by split.
Qed.

Lemma storage_key_shape_witness :
  let r := run Sample.env_ok Sample.cfg
             (Sample.request "v1" "token-u1" Sample.clip) Sample.world in
  let key := "landscape/" +:+ JS.toHex (replicate 32 Byte.xab) +:+ ".mp4" in
  is_Some (store r.2 !! ("tubely", key)) ∧ key_form 32 key.
Proof.
  destruct (storage_key_shape Sample.env_ok Sample.cfg
              (Sample.request "v1" "token-u1" Sample.clip) Sample.world
              (respondWithJSON 200
                 (with_videoURL Sample.v1
                    (url_of Sample.cfg
                       ("landscape/" +:+ JS.toHex (replicate 32 Byte.xab)
                          +:+ ".mp4")))))
    as (v & Hv & _ & _ & _ & Hstored & _ & Hform); [vm_compute; reflexivity|].
  injection Hv as <-.
  split; [exact Hstored|]. apply Hform. vm_compute; reflexivity.
Defined.

(** C7, as stated, fails: the key stored by the sample run carries 64 hex
    digits, so it is not a label followed by the hex of a 128-bit value, a
    dot and an extension, whatever the extension. *)
Lemma storage_key_is_not_128_bit :
  let r := run Sample.env_ok Sample.cfg
             (Sample.request "v1" "token-u1" Sample.clip) Sample.world in
  let key := "landscape/" +:+ JS.toHex (replicate 32 Byte.xab) +:+ ".mp4" in
  store r.2 !! ("tubely", key) =
    Some {| content := Sample.remuxed; contentType := "video/mp4" |} ∧
  ¬ key_form 16 key.
Proof.
  split; [vm_compute; reflexivity|].
  intros (label & random & ext & Hlabel & Hlen & Heq).
  do 17 (destruct random as [|? random]; try discriminate Hlen).
  match type of Heq with
  | ?stored = _ =>
      let literal := eval vm_compute in stored in
      change stored with literal in Heq
  end.
  unfold labels in Hlabel.
  repeat (apply elem_of_cons in Hlabel as [->|Hlabel];
          [cbv [JS.toHex String.append] in Heq; congruence|]).
  by apply elem_of_nil in Hlabel.
Qed.

(** ** The classifier *)

(** Each literal is the binary64 value nearest to its decimal: it is the
    correctly rounded quotient of the two integers, and lies within half a
    unit in the last place of the decimal. *)
Lemma literals_are_nearest :
  JS.lit_1_70 = JS.div (JS.of_Z 17) (JS.of_Z 10) ∧
  JS.lit_1_80 = JS.div (JS.of_Z 18) (JS.of_Z 10) ∧
  JS.lit_0_50 = JS.div (JS.of_Z 5) (JS.of_Z 10) ∧
  JS.lit_0_60 = JS.div (JS.of_Z 6) (JS.of_Z 10) ∧
  Z.abs (10 * 7656119366529843 - 17 * 2 ^ 52) <= 5 ∧
  Z.abs (10 * 8106479329266893 - 18 * 2 ^ 52) <= 5 ∧
  10 * 4503599627370496 = 5 * 2 ^ 53 ∧
  Z.abs (10 * 5404319552844595 - 6 * 2 ^ 53) <= 5.
Proof. repeat split; vm_compute; congruence. Qed.

(** No number lies in both intervals. *)
Lemma intervals_disjoint (ratio : JS.number) :
  JS.ge ratio JS.lit_1_70 && JS.le ratio JS.lit_0_60 = false.
Proof.
  unfold JS.ge, JS.le, SFleb, JS.lit_1_70, JS.lit_0_60.
  destruct ratio as [s|[]| |[] m e]; try reflexivity.
  unfold SFcompare.
  destruct (Z.compare_spec (-52) e), (Z.compare_spec e (-53));
    try lia; try reflexivity; by rewrite ?andb_false_r.
Qed.

(** The label is decided by the two intervals, which exclude each other; the
    four bounds are inclusive on the decimal fractions themselves. *)
Lemma classify_intervals (width height : JS.number) :
  let ratio := JS.div width height in
  let in_landscape := JS.ge ratio JS.lit_1_70 && JS.le ratio JS.lit_1_80 in
  let in_portrait := JS.ge ratio JS.lit_0_50 && JS.le ratio JS.lit_0_60 in
  (classify width height = "landscape" ↔ in_landscape = true) ∧
  (classify width height = "portrait" ↔ in_portrait = true) ∧
  (classify width height = "other" ↔
     in_landscape = false ∧ in_portrait = false) ∧
  in_landscape && in_portrait = false ∧
  classify (JS.of_Z 17) (JS.of_Z 10) = "landscape" ∧
  classify (JS.of_Z 18) (JS.of_Z 10) = "landscape" ∧
  classify (JS.of_Z 5) (JS.of_Z 10) = "portrait" ∧
  classify (JS.of_Z 6) (JS.of_Z 10) = "portrait" ∧
  classify (JS.of_Z 1920) (JS.of_Z 1080) = "landscape" ∧
  classify (JS.of_Z 1080) (JS.of_Z 1920) = "portrait" ∧
  classify (JS.of_Z 1000) (JS.of_Z 1000) = "other".
Proof.
  intros ratio in_landscape in_portrait.
  assert (in_landscape && in_portrait = false) as Hdisj.
  { subst in_landscape in_portrait.
    pose proof (intervals_disjoint ratio) as Hd.
    destruct (JS.ge ratio JS.lit_1_70); [|done].
    destruct (JS.le ratio JS.lit_0_60); [done|]. by rewrite !andb_false_r. }
  unfold classify. fold ratio. fold in_landscape. fold in_portrait.
  destruct in_landscape, in_portrait; try discriminate Hdisj;
    repeat split; try done; try (by intros [? ?]); vm_compute; reflexivity.
Qed.

(** ** Binary64 division of integers *)

Lemma digits2_pos_size p : digits2_pos p = Pos.size p.
Proof. induction p; simpl; congruence. Qed.

Lemma digits2_pos_bounds p :
  2 ^ (Z.pos (digits2_pos p) - 1) <= Z.pos p < 2 ^ Z.pos (digits2_pos p).
Proof.
  rewrite digits2_pos_size.
  pose proof (Pos.size_gt p) as Hgt. pose proof (Pos.size_le p) as Hle.
  apply Pos2Z.pos_lt_pos in Hgt. apply Pos2Z.pos_le_pos in Hle.
  rewrite Pos2Z.inj_pow in Hgt, Hle. rewrite (Pos2Z.inj_xO p) in Hle.
  set (s := Z.pos (Pos.size p)) in *.
  replace (2 ^ s) with (2 * 2 ^ (s - 1)) in Hle
    by (rewrite <- Z.pow_succ_r by lia; f_equal; lia).
  lia.
Qed.

(** The number of binary digits is fixed by the enclosing powers of two. *)
Lemma Zdigits2_bounds z d : 2 ^ (d - 1) <= z < 2 ^ d -> 0 < z -> Zdigits2 z = d.
Proof.
  intros [Hlo Hhi] Hpos. destruct z as [|p|]; try lia. simpl.
  pose proof (digits2_pos_bounds p) as [Hge Hlt].
  set (s := Z.pos (digits2_pos p)) in *.
  assert (0 < d) as Hd.
  { destruct (Z.lt_trichotomy d 0) as [Hn|[->|]]; [|simpl in Hhi; lia|done].
    rewrite Z.pow_neg_r in Hhi by lia. lia. }
  destruct (Z.lt_trichotomy s d) as [Hsd|[Heq|Hsd]]; [|done|].
  - pose proof (Z.pow_le_mono_r 2 s (d - 1)). lia.
  - pose proof (Z.pow_le_mono_r 2 d (s - 1)). lia.
Qed.

Lemma iter_xO p n : Z.pos (Pos.iter xO p n) = Z.pos p * 2 ^ Z.pos n.
Proof.
  induction n as [|n IH] using Pos.peano_ind.
  - simpl. lia.
  - rewrite Pos.iter_succ, Pos2Z.inj_succ, Z.pow_succ_r by lia.
    rewrite Pos2Z.inj_xO, IH. lia.
Qed.

(** A mantissa of 53 binary digits with an exponent in range needs no
    shift. *)
Lemma shr_fexp_53 m e l :
  2 ^ 52 <= m < 2 ^ 53 -> -1074 <= e ->
  shr_fexp JS.prec JS.emax m e l = (shr_record_of_loc m l, e).
Proof.
  intros Hm He. unfold shr_fexp.
  rewrite (Zdigits2_bounds m 53) by lia.
  unfold fexp, emin, JS.prec, JS.emax.
  replace (Z.max (53 + e - 53) (3 - 1024 - 53) - e) with 0 by lia.
  reflexivity.
Qed.

(** A mantissa of 54 binary digits is shifted by one place. *)
Lemma shr_fexp_54 m e l :
  2 ^ 53 <= m < 2 ^ 54 -> -1074 <= e ->
  shr_fexp JS.prec JS.emax m e l = (shr_1 (shr_record_of_loc m l), e + 1).
Proof.
  intros Hm He. unfold shr_fexp.
  rewrite (Zdigits2_bounds m 54) by lia.
  unfold fexp, emin, JS.prec, JS.emax.
  replace (Z.max (54 + e - 53) (3 - 1024 - 53) - e) with 1 by lia.
  reflexivity.
Qed.

(** Rounding a 53-digit mantissa that stays below 2^53. *)
Lemma binary_round_aux_53 m e l :
  2 ^ 52 <= m < 2 ^ 53 -> round_nearest_even m l < 2 ^ 53 ->
  m <= round_nearest_even m l ->
  -1074 <= e <= 971 ->
  binary_round_aux JS.prec JS.emax false m e l =
    S754_finite false (Z.to_pos (round_nearest_even m l)) e.
Proof.
  intros Hm Hr Hr' He. unfold binary_round_aux.
  rewrite shr_fexp_53 by lia.
  replace (shr_m (shr_record_of_loc m l)) with m by (by destruct l as [|[]]).
  replace (loc_of_shr_record (shr_record_of_loc m l)) with l
    by (by destruct l as [|[]]).
  rewrite shr_fexp_53 by lia. simpl shr_m.
  destruct (round_nearest_even m l) as [|p|] eqn:Hp; try lia.
  unfold JS.emax, JS.prec.
  destruct (e <=? 1024 - 53) eqn:Hle; [done|lia].
Qed.

(** The Number value of an integer below 2^52 is the integer itself, held
    with a 53-digit mantissa. *)
Lemma of_Z_normal w :
  0 < w < 2 ^ 52 ->
  ∃ M e, JS.of_Z w = S754_finite false M e ∧
         2 ^ 52 <= Z.pos M < 2 ^ 53 ∧ -52 <= e <= -1 ∧
         Z.pos M = w * 2 ^ (- e).
Proof.
  intros Hw. destruct w as [|p|]; try lia.
  pose proof (digits2_pos_bounds p) as Hd.
  set (d := Z.pos (digits2_pos p)) in *.
  assert (1 <= d <= 52) as Hrange.
  { split; [subst d; lia|].
    destruct (Z.le_gt_cases d 52) as [|Hgt]; [done|].
    pose proof (Z.pow_le_mono_r 2 52 (d - 1)). lia. }
  unfold JS.of_Z, binary_normalize, binary_round. fold d.
  unfold shl_align, fexp, emin, JS.prec, JS.emax.
  replace (Z.max (d + 0 - 53) (3 - 1024 - 53)) with (d - 53) by lia.
  destruct (d - 53 - 0) as [|k|k] eqn:Hk; try lia.
  set (M := Pos.iter xO p k).
  assert (Z.pos M = Z.pos p * 2 ^ (53 - d)) as HM.
  { subst M. rewrite iter_xO. f_equal. f_equal. lia. }
  assert (2 ^ 52 <= Z.pos M < 2 ^ 53) as Hbounds.
  { rewrite HM.
    replace (2 ^ 52) with (2 ^ (d - 1) * 2 ^ (53 - d))
      by (rewrite <- Z.pow_add_r by lia; f_equal; lia).
    replace (2 ^ 53) with (2 ^ d * 2 ^ (53 - d))
      by (rewrite <- Z.pow_add_r by lia; f_equal; lia).
    assert (0 < 2 ^ (53 - d)) by (apply Z.pow_pos_nonneg; lia). nia. }
  exists M, (d - 53).
  pose proof (binary_round_aux_53 (Z.pos M) (d - 53) loc_Exact) as Hround.
  simpl round_nearest_even in Hround. unfold JS.prec, JS.emax in Hround.
  rewrite Hround by lia.
  repeat split; try lia.
  rewrite HM. f_equal. f_equal. lia.
Qed.

(** The quotient and remainder handed to the rounding step. *)
Lemma SFdiv_core_normal M1 e1 M2 e2 :
  2 ^ 52 <= Z.pos M1 < 2 ^ 53 -> 2 ^ 52 <= Z.pos M2 < 2 ^ 53 ->
  -52 <= e1 <= -1 -> -52 <= e2 <= -1 ->
  SFdiv_core_binary JS.prec JS.emax (Z.pos M1) e1 (Z.pos M2) e2 =
    (Z.pos M1 * 2 ^ 53 / Z.pos M2, e1 - e2 - 53,
     new_location (Z.pos M2) ((Z.pos M1 * 2 ^ 53) mod Z.pos M2)).
Proof.
  intros H1 H2 He1 He2. unfold SFdiv_core_binary.
  rewrite (Zdigits2_bounds (Z.pos M1) 53), (Zdigits2_bounds (Z.pos M2) 53) by lia.
  unfold fexp, emin, JS.prec, JS.emax.
  replace (Z.min (Z.max (53 + e1 - (53 + e2) - 53) (3 - 1024 - 53)) (e1 - e2))
    with (e1 - e2 - 53) by lia.
  replace (e1 - e2 - (e1 - e2 - 53)) with 53 by lia.
  cbv iota. rewrite Z.shiftl_mul_pow2 by lia.
  unfold Z.div, Z.modulo.
  by destruct (Z.div_eucl (Z.pos M1 * 2 ^ 53) (Z.pos M2)).
Qed.

Lemma new_location_exact H r : new_location H r = loc_Exact -> r = 0.
Proof.
  unfold new_location, new_location_even, new_location_odd.
  destruct (Z.even H); destruct (Z.eqb_spec r 0); try done.
Qed.

(** Rounding to nearest moves the quotient by at most half a unit. *)
Lemma round_new_location H q r :
  0 <= r < H ->
  q <= round_nearest_even q (new_location H r) <= q + 1 ∧
  Z.abs (2 * (round_nearest_even q (new_location H r) * H - (q * H + r))) <= H.
Proof.
  intros Hr.
  unfold new_location, new_location_even, new_location_odd.
  destruct (Z.even H) eqn:Heven; destruct (Z.eqb_spec r 0) as [->|Hnz];
    simpl round_nearest_even; try lia.
  - destruct (Z.compare_spec (2 * r) H); simpl; [destruct (Z.even q)| |]; lia.
  - apply (f_equal negb) in Heven. rewrite Z.negb_even in Heven.
    apply Z.odd_spec in Heven as [k Hk].
    destruct (Z.compare_spec (2 * r + 1) H); simpl; lia.
Qed.

(** Rounding a 54-digit quotient: one digit is shifted out and the result is
    within one unit of the unshifted quotient. *)
Lemma binary_round_aux_54 q e H r :
  2 ^ 53 <= q <= 2 ^ 54 - 2 -> 0 <= r < H -> -1074 <= e <= 970 ->
  ∃ m, binary_round_aux JS.prec JS.emax false q e (new_location H r) =
         S754_finite false m (e + 1) ∧
       2 ^ 52 <= Z.pos m < 2 ^ 53 ∧
       Z.abs (2 * Z.pos m * H - (q * H + r)) <= H.
Proof.
  intros Hq Hr He. unfold binary_round_aux.
  rewrite shr_fexp_54 by lia.
  pose proof (new_location_exact H r) as Hexact.
  assert (∀ m, 2 ^ 52 <= Z.pos m < 2 ^ 53 ->
            Z.abs (2 * Z.pos m * H - (q * H + r)) <= H ->
            ∃ m', (let '(mrs'', e'') :=
                     shr_fexp JS.prec JS.emax (Z.pos m) (e + 1) loc_Exact in
                   match shr_m mrs'' with
                   | 0 => S754_zero false
                   | Z.pos m0 =>
                       if e'' <=? JS.emax - JS.prec
                       then S754_finite false m0 e'' else S754_infinity false
                   | Z.neg _ => S754_nan
                   end) = S754_finite false m' (e + 1) ∧
                  2 ^ 52 <= Z.pos m' < 2 ^ 53 ∧
                  Z.abs (2 * Z.pos m' * H - (q * H + r)) <= H) as Hfinish.
  { intros m Hm Hnear. exists m. rewrite shr_fexp_53 by lia. simpl shr_m.
    unfold JS.emax, JS.prec.
    destruct (e + 1 <=? 1024 - 53) eqn:Hle; [done|lia]. }
  destruct q as [|p|]; try lia.
  destruct p as [p|p|]; [| |lia].
  - destruct (new_location H r) as [|[]];
      cbn [shr_1 shr_record_of_loc loc_of_shr_record round_nearest_even
           shr_m shr_r shr_s orb];
      [specialize (Hexact eq_refl); subst r; destruct (Z.even (Z.pos p)) eqn:Hev| | |].
    + apply Hfinish; lia.
    + replace (Z.pos p + 1) with (Z.pos (p + 1)) by lia. apply Hfinish; lia.
    + replace (Z.pos p + 1) with (Z.pos (p + 1)) by lia. apply Hfinish; lia.
    + replace (Z.pos p + 1) with (Z.pos (p + 1)) by lia. apply Hfinish; lia.
    + replace (Z.pos p + 1) with (Z.pos (p + 1)) by lia. apply Hfinish; lia.
  - destruct (new_location H r) as [|[]];
      cbn [shr_1 shr_record_of_loc loc_of_shr_record round_nearest_even
           shr_m shr_r shr_s orb];
      apply Hfinish; lia.
Qed.

(** The quotient of two integers below 2^52 is a normal number whose
    53-digit mantissa [m] and exponent [ez] satisfy
    [|m * 2^ez - w / h| <= 2^ez / 2]. *)
Lemma div_integers w h :
  0 < w < 2 ^ 52 -> 0 < h < 2 ^ 52 ->
  ∃ m ez, JS.div (JS.of_Z w) (JS.of_Z h) = S754_finite false m ez ∧
          2 ^ 52 <= Z.pos m < 2 ^ 53 ∧ ez <= -1 ∧
          Z.abs (2 * Z.pos m * h - 2 * w * 2 ^ (- ez)) <= h.
Proof.
  intros Hw Hh.
  destruct (of_Z_normal w Hw) as (M1 & e1 & -> & HM1 & He1 & Hw1).
  destruct (of_Z_normal h Hh) as (M2 & e2 & -> & HM2 & He2 & Hh2).
  unfold JS.div, SFdiv. rewrite SFdiv_core_normal by lia.
  set (t := Z.pos M1 * 2 ^ 53).
  set (q := t / Z.pos M2). set (r := t mod Z.pos M2).
  assert (t = q * Z.pos M2 + r) as Ht
    by (subst q r; rewrite (Z.div_mod t (Z.pos M2)) at 1 by lia; lia).
  assert (0 <= r < Z.pos M2) as Hr by (subst r; apply Z.mod_pos_bound; lia).
  assert (2 ^ 52 <= q <= 2 ^ 54 - 2) as Hq.
  { split.
    - apply Z.div_le_lower_bound; [lia|]. subst t. nia.
    - assert (q < 2 ^ 54 - 1); [|lia].
      apply Z.div_lt_upper_bound; [lia|]. subst t. nia. }
  set (B := 2 ^ (- e2)) in *.
  assert (0 < B) as HB by (subst B; apply Z.pow_pos_nonneg; lia).
  cbn [xorb].
  destruct (Z.lt_ge_cases q (2 ^ 53)) as [Hsmall|Hbig].
  - assert (q <= 2 ^ 53 - 2) as Hq'.
    { assert (q < 2 ^ 53 - 1); [|lia].
      apply Z.div_lt_upper_bound; [lia|].
      assert (Z.pos M1 < Z.pos M2); [|subst t; nia].
      destruct (Z.lt_ge_cases (Z.pos M1) (Z.pos M2)) as [|Hge]; [done|].
      exfalso. subst t. nia. }
    destruct (round_new_location (Z.pos M2) q r Hr) as [Hm Hnear].
    set (m := round_nearest_even q (new_location (Z.pos M2) r)) in *.
    rewrite binary_round_aux_53 by (fold m; lia). fold m.
    exists (Z.to_pos m), (e1 - e2 - 53).
    rewrite Z2Pos.id by lia.
    split; [done|]. split; [lia|]. split; [lia|].
    assert (t = w * 2 ^ (- (e1 - e2 - 53)) * B) as Ht'.
    { subst t B. rewrite Hw1, <- !Z.mul_assoc, <- !Z.pow_add_r by lia.
      f_equal. f_equal. lia. }
    rewrite <- Ht, Ht', Hh2 in Hnear.
    set (F := 2 ^ (- (e1 - e2 - 53))) in *. fold B in Hnear.
    replace (2 * (m * (h * B) - w * F * B))
      with ((2 * m * h - 2 * w * F) * B) in Hnear by ring.
    rewrite Z.abs_mul, (Z.abs_eq B) in Hnear by lia. nia.
  - destruct (binary_round_aux_54 q (e1 - e2 - 53) (Z.pos M2) r)
      as (m & -> & Hm & Hnear); [lia|lia|lia|].
    exists m, (e1 - e2 - 53 + 1).
    split; [done|]. split; [lia|]. split; [lia|].
    assert (t = 2 * w * 2 ^ (- (e1 - e2 - 53 + 1)) * B) as Ht'.
    { subst t B. rewrite Hw1.
      replace (2 ^ 53) with (2 * 2 ^ 52) by reflexivity.
      replace (w * 2 ^ (- e1) * (2 * 2 ^ 52))
        with (2 * w * (2 ^ (- e1) * 2 ^ 52)) by ring.
      rewrite <- !Z.mul_assoc, <- !Z.pow_add_r by lia.
      f_equal. f_equal. f_equal. lia. }
    rewrite <- Ht, Ht', Hh2 in Hnear.
    set (F := 2 ^ (- (e1 - e2 - 53 + 1))) in *. fold B in Hnear.
    replace (2 * Z.pos m * (h * B) - 2 * w * F * B)
      with ((2 * Z.pos m * h - 2 * w * F) * B) in Hnear by ring.
    rewrite Z.abs_mul, (Z.abs_eq B) in Hnear by lia. nia.
Qed.

(** *** Integer inequalities behind the comparisons

    [m] stands for the rounded mantissa, [mc] for the mantissa of the
    constant, [E] and [F] for the scales [2^(-ec)] and [2^(-ez)], [K] for
    [2^52]. *)

Lemma scaled_ge_1 w h m mc cn cd E :
  0 < h -> 0 < cd -> 0 < E ->
  2 * m * h - 2 * w * E <= h -> mc <= m ->
  2 * (cn * E - cd * mc) < cd -> cd * h <= E ->
  cn * h <= cd * w.
Proof.
  intros Hh Hcd HE Hnear Hm Hbr Hgap.
  destruct (Z.le_gt_cases (cn * h) (cd * w)) as [|Hno]; [done|exfalso].
  assert (mc * h <= m * h) by (apply Z.mul_le_mono_nonneg_r; lia).
  assert (cd * (2 * (mc * h) - h) <= cd * (2 * (w * E)))
    by (apply Z.mul_le_mono_nonneg_l; lia).
  assert (E * (cd * w + 1) <= E * (cn * h))
    by (apply Z.mul_le_mono_nonneg_l; lia).
  assert (h * (2 * (cn * E - cd * mc)) < h * cd)
    by (apply Z.mul_lt_mono_pos_l; lia).
  lia.
Qed.

Lemma scaled_ge_2 w h m mc cn cd E :
  0 < h -> 0 < cd -> 0 < E ->
  2 * w * E - 2 * m * h <= h -> cn * h <= cd * w ->
  2 * (cd * mc - cn * E) < cd ->
  mc <= m.
Proof.
  intros Hh Hcd HE Hnear Hle Hbr.
  destruct (Z.le_gt_cases mc m) as [|Hno]; [done|exfalso].
  assert (m * h <= (mc - 1) * h) by (apply Z.mul_le_mono_nonneg_r; lia).
  assert (cd * (2 * (w * E)) <= cd * (2 * (mc * h) - h))
    by (apply Z.mul_le_mono_nonneg_l; lia).
  assert (E * (cn * h) <= E * (cd * w))
    by (apply Z.mul_le_mono_nonneg_l; lia).
  assert (h * (2 * (cd * mc - cn * E)) < h * cd)
    by (apply Z.mul_lt_mono_pos_l; lia).
  lia.
Qed.

Lemma scaled_le_1 w h m mc cn cd E :
  0 < h -> 0 < cd -> 0 < E ->
  2 * w * E - 2 * m * h <= h -> m <= mc ->
  2 * (cd * mc - cn * E) < cd -> cd * h <= E ->
  cd * w <= cn * h.
Proof.
  intros Hh Hcd HE Hnear Hm Hbr Hgap.
  destruct (Z.le_gt_cases (cd * w) (cn * h)) as [|Hno]; [done|exfalso].
  assert (m * h <= mc * h) by (apply Z.mul_le_mono_nonneg_r; lia).
  assert (cd * (2 * (w * E)) <= cd * (2 * (mc * h) + h))
    by (apply Z.mul_le_mono_nonneg_l; lia).
  assert (E * (cn * h + 1) <= E * (cd * w))
    by (apply Z.mul_le_mono_nonneg_l; lia).
  assert (h * (2 * (cd * mc - cn * E)) < h * cd)
    by (apply Z.mul_lt_mono_pos_l; lia).
  lia.
Qed.

Lemma scaled_le_2 w h m mc cn cd E :
  0 < h -> 0 < cd -> 0 < E ->
  2 * m * h - 2 * w * E <= h -> cd * w <= cn * h ->
  2 * (cn * E - cd * mc) < cd ->
  m <= mc.
Proof.
  intros Hh Hcd HE Hnear Hle Hbr.
  destruct (Z.le_gt_cases m mc) as [|Hno]; [done|exfalso].
  assert ((mc + 1) * h <= m * h) by (apply Z.mul_le_mono_nonneg_r; lia).
  assert (cd * (2 * (mc * h) + h) <= cd * (2 * (w * E)))
    by (apply Z.mul_le_mono_nonneg_l; lia).
  assert (E * (cd * w) <= E * (cn * h))
    by (apply Z.mul_le_mono_nonneg_l; lia).
  assert (h * (2 * (cn * E - cd * mc)) < h * cd)
    by (apply Z.mul_lt_mono_pos_l; lia).
  lia.
Qed.

Lemma scaled_above w h m cn cd E F K :
  0 < h -> 0 <= w -> 0 < cd -> 0 < E ->
  2 * m * h - 2 * w * F <= h -> K <= m -> 2 * F <= E ->
  cn * E < cd * (2 * K - 1) ->
  cn * h < cd * w.
Proof.
  intros Hh Hw Hcd HE Hnear Hm HF Hhigh.
  assert (K * h <= m * h) by (apply Z.mul_le_mono_nonneg_r; lia).
  assert (w * (2 * F) <= w * E) by (apply Z.mul_le_mono_nonneg_l; lia).
  assert (cd * (2 * (K * h) - h) <= cd * (w * E))
    by (apply Z.mul_le_mono_nonneg_l; lia).
  assert (h * (cn * E) < h * (cd * (2 * K - 1)))
    by (apply Z.mul_lt_mono_pos_l; lia).
  apply (Z.mul_lt_mono_pos_l E); lia.
Qed.

Lemma scaled_below w h m cn cd E F K :
  0 < h -> 0 <= w -> 0 < cd -> 0 < E ->
  2 * w * F - 2 * m * h <= h -> m <= 2 * K - 1 -> 2 * E <= F ->
  cd * K <= cn * E ->
  cd * w < cn * h.
Proof.
  intros Hh Hw Hcd HE Hnear Hm HF Hlow.
  assert (m * h <= (2 * K - 1) * h) by (apply Z.mul_le_mono_nonneg_r; lia).
  assert (w * (2 * E) <= w * F) by (apply Z.mul_le_mono_nonneg_l; lia).
  assert (cd * (4 * (w * E)) <= cd * (4 * (K * h) - h))
    by (apply Z.mul_le_mono_nonneg_l; lia).
  assert (h * (cd * K) <= h * (cn * E))
    by (apply Z.mul_le_mono_nonneg_l; lia).
  assert (0 < cd * h) by (apply Z.mul_pos_pos; lia).
  apply (Z.mul_lt_mono_pos_l E); lia.
Qed.

Lemma pow_step a b : 0 <= a < b -> 2 * 2 ^ a <= 2 ^ b.
Proof.
  intros Hab. rewrite <- Z.pow_succ_r by lia.
  apply Z.pow_le_mono_r; lia.
Qed.

(** Comparing a rounded quotient with a binary64 constant [mc * 2^ec] that
    is the nearest value to the decimal [cn / cd]: as long as [cd * h] does
    not exceed [2^(-ec)], the comparison of the floats agrees with the
    comparison of [w / h] with [cn / cd]. *)
Section CompareWithDecimal.

Variables (w h : Z) (m : positive) (ez : Z).
Variables (mc : positive) (ec cn cd : Z).
Hypothesis Hw : 0 < w.
Hypothesis Hh : 0 < h.
Hypothesis Hm : 2 ^ 52 <= Z.pos m < 2 ^ 53.
Hypothesis Hez : ez <= -1.
Hypothesis Hnear : Z.abs (2 * Z.pos m * h - 2 * w * 2 ^ (- ez)) <= h.
Hypothesis Hec : ec <= -1.
Hypothesis Hcd : 0 < cd.
Hypothesis Hbracket : 2 * Z.abs (cd * Z.pos mc - cn * 2 ^ (- ec)) < cd.
Hypothesis Hlow : cd * 2 ^ 52 <= cn * 2 ^ (- ec).
Hypothesis Hhigh : cn * 2 ^ (- ec) < cd * (2 ^ 53 - 1).
Hypothesis Hgap : cd * h <= 2 ^ (- ec).

Lemma const_le_quotient :
  SFleb (S754_finite false mc ec) (S754_finite false m ez) = true ↔
  cn * h <= cd * w.
Proof.
  unfold SFleb, SFcompare.
  change (Pos.compare_cont Eq mc m) with (Pos.compare mc m).
  rewrite Pos2Z.inj_compare.
  set (E := 2 ^ (- ec)) in *. set (F := 2 ^ (- ez)) in *.
  assert (0 < E) by (subst E; apply Z.pow_pos_nonneg; lia).
  assert (0 < F) by (subst F; apply Z.pow_pos_nonneg; lia).
  apply Z.abs_le in Hnear.
  assert (2 * (cd * Z.pos mc - cn * E) < cd ∧
          2 * (cn * E - cd * Z.pos mc) < cd) as [Hbr1 Hbr2] by lia.
  destruct (Z.compare_spec ec ez) as [Heq|Hlt|Hgt].
  - assert (F = E) as HFE by (subst E F; by rewrite Heq).
    rewrite HFE in Hnear.
    destruct (Z.compare_spec (Z.pos mc) (Z.pos m)) as [Hc|Hc|Hc].
    + split; [intros _|done].
      apply (scaled_ge_1 w h (Z.pos m) (Z.pos mc) cn cd E); lia.
    + split; [intros _|done].
      apply (scaled_ge_1 w h (Z.pos m) (Z.pos mc) cn cd E); lia.
    + split; [done|intros Hle; exfalso].
      pose proof (scaled_ge_2 w h (Z.pos m) (Z.pos mc) cn cd E). lia.
  - assert (2 * F <= E) by (subst E F; apply pow_step; lia).
    split; [intros _|done].
    pose proof (scaled_above w h (Z.pos m) cn cd E F (2 ^ 52)). lia.
  - assert (2 * E <= F) by (subst E F; apply pow_step; lia).
    split; [done|intros Hle; exfalso].
    pose proof (scaled_below w h (Z.pos m) cn cd E F (2 ^ 52)). lia.
Qed.

Lemma quotient_le_const :
  SFleb (S754_finite false m ez) (S754_finite false mc ec) = true ↔
  cd * w <= cn * h.
Proof.
  unfold SFleb, SFcompare.
  change (Pos.compare_cont Eq m mc) with (Pos.compare m mc).
  rewrite Pos2Z.inj_compare.
  set (E := 2 ^ (- ec)) in *. set (F := 2 ^ (- ez)) in *.
  assert (0 < E) by (subst E; apply Z.pow_pos_nonneg; lia).
  assert (0 < F) by (subst F; apply Z.pow_pos_nonneg; lia).
  apply Z.abs_le in Hnear.
  assert (2 * (cd * Z.pos mc - cn * E) < cd ∧
          2 * (cn * E - cd * Z.pos mc) < cd) as [Hbr1 Hbr2] by lia.
  destruct (Z.compare_spec ez ec) as [Heq|Hlt|Hgt].
  - assert (F = E) as HFE by (subst E F; by rewrite Heq).
    rewrite HFE in Hnear.
    destruct (Z.compare_spec (Z.pos m) (Z.pos mc)) as [Hc|Hc|Hc].
    + split; [intros _|done].
      apply (scaled_le_1 w h (Z.pos m) (Z.pos mc) cn cd E); lia.
    + split; [intros _|done].
      apply (scaled_le_1 w h (Z.pos m) (Z.pos mc) cn cd E); lia.
    + split; [done|intros Hle; exfalso].
      pose proof (scaled_le_2 w h (Z.pos m) (Z.pos mc) cn cd E). lia.
  - assert (2 * E <= F) by (subst E F; apply pow_step; lia).
    split; [intros _|done].
    pose proof (scaled_below w h (Z.pos m) cn cd E F (2 ^ 52)). lia.
  - assert (2 * F <= E) by (subst E F; apply pow_step; lia).
    split; [done|intros Hle; exfalso].
    pose proof (scaled_above w h (Z.pos m) cn cd E F (2 ^ 52)). lia.
Qed.

End CompareWithDecimal.

(** Side conditions of the two comparison lemmas: facts about the operands
    come from the context, facts about a literal are computed. *)
Ltac decimal_side :=
  lazymatch goal with
  | |- Z.abs _ <= _ => assumption
  | |- _ <= Z.pos _ < _ => assumption
  | |- 2 * Z.abs _ < _ => by vm_compute
  | |- _ * 2 ^ _ <= _ * 2 ^ _ => by vm_compute
  | |- _ * 2 ^ _ < _ => by vm_compute
  | |- _ => lia
  end.

(** C4.  With [ratio] the quotient [width / height] the code computes, the
    label is [landscape] exactly when [1.70 <= ratio <= 1.80], [portrait]
    exactly when [0.50 <= ratio <= 0.60], and [other] exactly when neither
    holds, whatever the two numbers are.  For positive integer dimensions
    below 2^48 the computed quotient and the literals compare as the exact
    fractions do: the label is [landscape] exactly when
    [17/10 <= w/h <= 18/10], [portrait] exactly when [5/10 <= w/h <= 6/10],
    and [other] otherwise, all four bounds included. *)
Theorem classify_by_ratio :
  (∀ width height : JS.number,
     let ratio := JS.div width height in
     let in_landscape := JS.ge ratio JS.lit_1_70 && JS.le ratio JS.lit_1_80 in
     let in_portrait := JS.ge ratio JS.lit_0_50 && JS.le ratio JS.lit_0_60 in
     (classify width height = "landscape" ↔ in_landscape = true) ∧
     (classify width height = "portrait" ↔ in_portrait = true) ∧
     (classify width height = "other" ↔
        in_landscape = false ∧ in_portrait = false)) ∧
  (∀ w h : Z,
     0 < w < 2 ^ 48 -> 0 < h < 2 ^ 48 ->
     (classify (JS.of_Z w) (JS.of_Z h) = "landscape" ↔
        17 * h <= 10 * w <= 18 * h) ∧
     (classify (JS.of_Z w) (JS.of_Z h) = "portrait" ↔
        5 * h <= 10 * w <= 6 * h) ∧
     (classify (JS.of_Z w) (JS.of_Z h) = "other" ↔
        ¬ (17 * h <= 10 * w <= 18 * h) ∧ ¬ (5 * h <= 10 * w <= 6 * h))).
Proof.
  split.
  { intros width height.
    destruct (classify_intervals width height) as (Hl & Hp & Ho & _).
    exact (conj Hl (conj Hp Ho)). }
  intros w h Hw Hh.
  destruct (div_integers w h) as (m & ez & Hdiv & Hm & Hez & Hnear); [lia|lia|].
  destruct (classify_intervals (JS.of_Z w) (JS.of_Z h)) as (Hl & Hp & Ho & _).
  rewrite Hdiv in Hl, Hp, Ho.
  unfold JS.ge, JS.le, JS.lit_1_70, JS.lit_1_80, JS.lit_0_50, JS.lit_0_60
    in Hl, Hp, Ho.
  assert (SFleb (S754_finite false 7656119366529843 (-52))
            (S754_finite false m ez) = true ↔ 17 * h <= 10 * w) as H170
    by (apply const_le_quotient; decimal_side).
  assert (SFleb (S754_finite false m ez)
            (S754_finite false 8106479329266893 (-52)) = true ↔
          10 * w <= 18 * h) as H180
    by (apply quotient_le_const; decimal_side).
  assert (SFleb (S754_finite false 4503599627370496 (-53))
            (S754_finite false m ez) = true ↔ 5 * h <= 10 * w) as H050
    by (apply const_le_quotient; decimal_side).
  assert (SFleb (S754_finite false m ez)
            (S754_finite false 5404319552844595 (-53)) = true ↔
          10 * w <= 6 * h) as H060
    by (apply quotient_le_const; decimal_side).
  rewrite Hl, Hp, Ho, !andb_false_iff, !andb_true_iff, <- !not_true_iff_false.
  rewrite H170, H180, H050, H060. lia.
Qed.

Lemma classify_by_ratio_witness :
  classify (JS.of_Z 1920) (JS.of_Z 1080) = "landscape" ↔
  17 * 1080 <= 10 * 1920 <= 18 * 1080.
Proof. apply (proj2 classify_by_ratio 1920 1080); lia. Defined.

(** The bound in the statement above cannot be dropped altogether: with
    dimensions near 10^15 the quotient of a pair just below 17/10 rounds to
    the literal 1.70 itself. *)
Lemma quotient_rounds_onto_literal :
  JS.div (JS.of_Z 1700000000000005) (JS.of_Z 1000000000000003) = JS.lit_1_70 ∧
  10 * 1700000000000005 < 17 * 1000000000000003.
Proof. split; [vm_compute; reflexivity | lia]. Qed.

(** * Further properties of the upload handler *)

(** ** What a run changes *)

Lemma processed_path_differs v : processed_path_of v ≠ tempFilePath_of v.
Proof.
  unfold processed_path_of. intros Heq.
  apply (f_equal String.length) in Heq. rewrite length_append in Heq.
  simpl in Heq. lia.
Qed.

(** With collaborators that never fail, the handler over [Faults] is the
    handler. *)
Lemma fallible_run_without_faults env cfg req w :
  Fallible.run env no_faults cfg req w = run env cfg req w.
Proof. reflexivity. Qed.

(** The two calls after the store write, by cases on which of them
    throws. *)
Ltac after_store_write v video data Hratio Hstaged :=
  let e0 := fresh "e0" in
  let Hup := fresh "Hup" in
  let Hrm := fresh "Hrm" in
  let Hno := fresh "Hno" in
  destruct (update_error _ _) as [e0|] eqn:Hup; simpl;
  [ intros [= ->]; split;
    [ right; exists v, video, data; rewrite Hratio;
      split; [done|]; split; [done|]; split; [done|];
      split; [by repeat apply apply_writes_preserves|]; by left
    | intros Hno _; by rewrite Hno in Hup ]
  | destruct (rm_error _ _) as [e0|] eqn:Hrm; simpl; [|done];
    intros [= ->]; split;
    [ right; exists v, video, data; rewrite Hratio;
      split; [done|]; split; [done|]; split; [done|];
      split; [by repeat apply apply_writes_preserves|]; by right
    | intros _ Hno; by rewrite Hno in Hrm ] ].

(** What a failed run has changed, whichever call threw (the table and the
    filesystem may fail as [Faults] says).  Either the table and the object
    store are as before: that is so for every error raised by a validation,
    the record lookup, the staging write, the probe, the remux or the store
    write.  Or the object was stored under the run's key and the error is
    the one of [updateVideo], with the table unchanged, or the one of [rm],
    with the row already rewritten; the temp file is then still on disk.
    When [updateVideo] and [rm] cannot fail, a failed run has changed
    neither the table nor the store. *)
Theorem failed_run_footprint env faults cfg req w e :
  (Fallible.run env faults cfg req w).1 = Throw e ->
  ((db (Fallible.run env faults cfg req w).2 = db w ∧
    store (Fallible.run env faults cfg req w).2 = store w) ∨
   (∃ v video data,
      params_videoId req = Some v ∧ db w !! v = Some video ∧
      let key := key_of (ratio_of env v) (randomBytes env 32) in
      let video' := with_videoURL video (url_of cfg key) in
      store (Fallible.run env faults cfg req w).2 =
        <[(s3Bucket cfg, key) :=
            {| content := data; contentType := "video/mp4" |}]> (store w) ∧
      is_Some (disk (Fallible.run env faults cfg req w).2
                 !! tempFilePath_of v) ∧
      ((update_error faults video' = Some e ∧
        db (Fallible.run env faults cfg req w).2 = db w) ∨
       (update_error faults video' = None ∧
        rm_error faults (tempFilePath_of v) = Some e ∧
        db (Fallible.run env faults cfg req w).2 =
          match db w !! id video with
          | Some _ => <[id video := video']> (db w)
          | None => db w
          end)))) ∧
  ((∀ video', update_error faults video' = None) ->
   (∀ p, rm_error faults p = None) ->
   db (Fallible.run env faults cfg req w).2 = db w ∧
   store (Fallible.run env faults cfg req w).2 = store w).
Proof.
  unfold Fallible.run, Fallible.handlerUploadVideo, Fallible.getVideo,
    Fallible.updateVideo, Fallible.Bun_write, Fallible.rm_force,
    Fallible.or_throw, getVideoAspectRatio, processVideoForFastStart,
    s3_write, updateVideo, rm_force, Bun_write, Bun_spawn, text, getVideo,
    getBearerToken, validateJWT, bind, ret, throw, set_disk, set_db,
    set_store.
  destruct req as [[v|] [[tok|]] form]; simpl;
    try (by intros _; split; [left|]);
    (destruct (negb (v =? "")%string); simpl; [|by intros _; split; [left|]]);
    try (by intros _; split; [left|]).
  destruct (jwt_subject env tok (jwtSecret cfg)) as [user|]; simpl;
    [|by intros _; split; [left|]].
  destruct (get_error faults v); simpl; [by intros _; split; [left|]|].
  destruct (db w !! v) as [video|] eqn:Hvideo; simpl;
    [|by intros _; split; [left|]].
  destruct (bool_decide (userID video ≠ user)); simpl;
    [by intros _; split; [left|]|].
  destruct (form !! "video") as [[s|f]|]; simpl;
    try (by intros _; split; [left|]).
  destruct (size f >? MAX_UPLOAD_LIMIT); simpl; [by intros _; split; [left|]|].
  destruct (bool_decide (type f ≠ "video/mp4")) eqn:Htype; simpl;
    [by intros _; split; [left|]|].
  apply bool_decide_eq_false in Htype. apply dec_stable in Htype.
  rewrite Htype. clear Htype.
  destruct (write_error faults (tempFilePath_of v)); simpl;
    [by intros _; split; [left|]|].
  set (o1 := exec env (ffprobe_argv (tempFilePath_of v))).
  set (d1 := <[tempFilePath_of v := payload f]> (disk w)).
  assert (is_Some (d1 !! tempFilePath_of v)) as Hstaged
    by (subst d1; rewrite lookup_insert_eq; eauto).
  assert (ratio_of env v =
            if bool_decide (exit_code o1 = Some 0) then
              match probe_dims env (out_text o1) with
              | Dims width height => Some (classify width height)
              | _ => None
              end
            else None) as Hratio by reflexivity.
  revert Hratio.
  destruct (bool_decide (exit_code o1 = Some 0)); simpl.
  - destruct (probe_dims env (out_text o1)) as [width height|msg|msg]; simpl;
      intros Hratio; try (by intros _; split; [left|]).
    destruct (bool_decide (exit_code (exec env (ffmpeg_argv _ _)) ≠ Some 0));
      simpl; [by intros _; split; [left|]|].
    destruct (apply_writes _ _ !! _) as [data|]; simpl;
      [|by intros _; split; [left|]].
    destruct (s3_reject env _ _); simpl; [by intros _; split; [left|]|].
    after_store_write v video data Hratio Hstaged.
  - intros Hratio.
    destruct (bool_decide (exit_code (exec env (ffmpeg_argv _ _)) ≠ Some 0));
      simpl; [by intros _; split; [left|]|].
    destruct (apply_writes _ _ !! _) as [data|]; simpl;
      [|by intros _; split; [left|]].
    destruct (s3_reject env _ _); simpl; [by intros _; split; [left|]|].
    after_store_write v video data Hratio Hstaged.
Qed.

Lemma failed_run_footprint_witness :
  (let r := Fallible.run Sample.env_remux_fails no_faults Sample.cfg
              (Sample.request "v1" "token-u1" Sample.clip) Sample.world in
   db r.2 = db Sample.world ∧ store r.2 = store Sample.world) ∧
  (let r := Fallible.run Sample.env_ok FaultSample.table_locked Sample.cfg
              (Sample.request "v1" "token-u1" Sample.clip) Sample.world in
   db r.2 = db Sample.world ∧
   is_Some (store r.2 !! (s3Bucket Sample.cfg,
                          key_of (ratio_of Sample.env_ok "v1")
                            (randomBytes Sample.env_ok 32)))).
Proof.
  split.
  - apply (failed_run_footprint Sample.env_remux_fails no_faults Sample.cfg
             (Sample.request "v1" "token-u1" Sample.clip) Sample.world
             (Error "[object ReadableStream]"));
      [vm_compute; reflexivity | done | done].
  - destruct (proj1 (failed_run_footprint Sample.env_ok
                       FaultSample.table_locked Sample.cfg
                       (Sample.request "v1" "token-u1" Sample.clip)
                       Sample.world (Error "database is locked")
                       ltac:(vm_compute; reflexivity)))
      as [[Hdb Hstore]|(v & video & data & Hv & _ & Hstore & _ & Hcase)].
    + split; [exact Hdb|]. vm_compute. eauto.
    + injection Hv as <-. cbv zeta in Hstore, Hcase. split.
      * destruct Hcase as [[_ Hdb]|[Hup _]]; [exact Hdb|discriminate Hup].
      * rewrite Hstore, lookup_insert_eq. eauto.
Defined.

(** A successful run rewrites one row and adds one object.  The row is the
    one carrying the resolved record's identifier and only its locator
    changes; the object is stored under the run's key with the upload's media
    type; every other row and every other object is as before. *)
Theorem successful_run_footprint env cfg req w resp :
  (run env cfg req w).1 = Return resp ->
  ∃ v video data,
    params_videoId req = Some v ∧ db w !! v = Some video ∧
    let key := key_of (ratio_of env v) (randomBytes env 32) in
    resp = respondWithJSON 200 (with_videoURL video (url_of cfg key)) ∧
    id (body resp) = id video ∧ userID (body resp) = userID video ∧
    thumbnailURL (body resp) = thumbnailURL video ∧
    (∀ k, k ≠ id video -> db (run env cfg req w).2 !! k = db w !! k) ∧
    (id video = v -> db (run env cfg req w).2 !! v = Some (body resp)) ∧
    store (run env cfg req w).2 =
      <[(s3Bucket cfg, key) :=
          {| content := data; contentType := "video/mp4" |}]> (store w).
Proof.
  destruct (first_failure env cfg req w handler_order) as [e0|] eqn:Hff.
  { by rewrite (run_validation_failure _ _ _ _ _ Hff). }
  destruct (run_validated _ _ _ _ Hff)
    as (v & video & f & Hv & Hvideo & _ & _ & _ & Htype & Hrun).
  rewrite Hrun, after_validation_cases.
  destruct (stage_of env cfg v f w) as [| | | |data]; cbn [fst snd]; try done.
  intros [= <-]. exists v, video, data.
  split; [done|]. split; [done|]. cbv zeta. cbn [db store body].
  split; [done|]. split; [done|]. split; [done|]. split; [done|].
  split; [|split; [|by rewrite Htype]].
  - intros k Hk. destruct (db w !! id video); [|done].
    by rewrite lookup_insert_ne.
  - intros <-. rewrite Hvideo. by rewrite lookup_insert_eq.
Qed.

Lemma successful_run_footprint_witness :
  let r := run Sample.env_ok Sample.cfg
             (Sample.request "v1" "token-u1" Sample.clip) Sample.world in
  ∃ resp, r.1 = Return resp ∧ db r.2 !! "v1" = Some (body resp) ∧
          thumbnailURL (body resp) = thumbnailURL Sample.v1.
Proof.
  intros r.
  destruct (run Sample.env_ok Sample.cfg
              (Sample.request "v1" "token-u1" Sample.clip) Sample.world).1
    as [resp|] eqn:Hrun; [|vm_compute in Hrun; discriminate].
  destruct (successful_run_footprint Sample.env_ok Sample.cfg
              (Sample.request "v1" "token-u1" Sample.clip) Sample.world resp Hrun)
    as (v & video & data & Hv & Hvideo & _ & _ & _ & Hthumb & _ & Hrow & _).
  injection Hv as <-. vm_compute in Hvideo. injection Hvideo as <-.
  exists resp. subst r. rewrite Hrun. split; [done|]. split; [|done].
  by apply Hrow.
Defined.

(** The only file a run ever removes is its Staging File: any other file
    present before the run is present after it, and a Processed File that
    the remux wrote is still there when the run ends, in success as in
    failure. *)
Theorem run_removes_only_staging_file env cfg req w v :
  params_videoId req = Some v ->
  (∀ p, p ≠ tempFilePath_of v -> is_Some (disk w !! p) ->
        is_Some (disk (run env cfg req w).2 !! p)) ∧
  (first_failure env cfg req w handler_order = None ->
   probe_passes env v = true ->
   processed_path_of v ∈
     (writes (exec env (ffmpeg_argv (tempFilePath_of v)
                          (processed_path_of v)))).*1 ->
   is_Some (disk (run env cfg req w).2 !! processed_path_of v)).
Proof.
  intros Hv.
  destruct (first_failure env cfg req w handler_order) as [e0|] eqn:Hff.
  { rewrite (run_validation_failure _ _ _ _ _ Hff). by split. }
  destruct (run_validated _ _ _ _ Hff)
    as (v' & video & f & Hv' & _ & _ & _ & _ & _ & Hrun).
  assert (v' = v) as -> by congruence.
  rewrite Hrun, after_validation_cases.
  pose proof (stage_of_inv env cfg v f w) as Hinv.
  pose proof (processed_path_differs v) as Hdiff.
  split.
  - intros p Hp Hin.
    assert (is_Some (<[tempFilePath_of v := payload f]> (disk w) !! p)) as Hin'
      by (by rewrite lookup_insert_ne).
    destruct (stage_of env cfg v f w); cbn [snd disk];
      try (by repeat apply apply_writes_preserves).
    rewrite lookup_delete_ne by done.
    by repeat apply apply_writes_preserves.
  - intros _ Hprobe Hwritten.
    destruct (stage_of env cfg v f w); cbn [snd disk];
      try (by apply apply_writes_written).
    + destruct Hinv; congruence.
    + rewrite lookup_delete_ne by done. by apply apply_writes_written.
Qed.

Lemma run_removes_only_staging_file_witness :
  is_Some (disk (run Sample.env_ok Sample.cfg
                   (Sample.request "v1" "token-u1" Sample.clip) Sample.world).2
             !! processed_path_of "v1").
Proof.
  apply (run_removes_only_staging_file Sample.env_ok Sample.cfg
           (Sample.request "v1" "token-u1" Sample.clip) Sample.world "v1");
    try (vm_compute; reflexivity).
  vm_compute. apply list_elem_of_here.
Defined.

(** ** The remux adapter *)

(** [processVideoForFastStart] returns exactly when the tool's exit code is
    zero, and then with the input path suffixed by [.processed]; on any other
    exit code, and when the tool was killed by a signal, it throws.  The
    output path is never the input path, and the call changes nothing but
    the files the tool wrote. *)
Theorem remux_adapter_outcome env inFilePath w :
  let o := exec env (ffmpeg_argv inFilePath (inFilePath +:+ ".processed")) in
  let r := processVideoForFastStart env inFilePath w in
  (r.1 = Return (inFilePath +:+ ".processed") ↔ exit_code o = Some 0) ∧
  ((∃ e, r.1 = Throw e) ↔ exit_code o ≠ Some 0) ∧
  inFilePath +:+ ".processed" ≠ inFilePath ∧
  db r.2 = db w ∧ store r.2 = store w ∧
  disk r.2 = apply_writes (writes o) (disk w).
Proof.
  intros o r. subst r.
  unfold processVideoForFastStart, bind, Bun_spawn, throw, ret; simpl.
  fold o.
  assert (inFilePath +:+ ".processed" ≠ inFilePath) as Hdiff.
  { intros Heq. apply (f_equal String.length) in Heq.
    rewrite length_append in Heq. simpl in Heq. lia. }
  destruct (decide (exit_code o = Some 0)) as [Hzero|Hnz].
  - rewrite bool_decide_eq_false_2 by (by intros ?). simpl.
    repeat split; try done. by intros [e [=]].
  - rewrite bool_decide_eq_true_2 by done. simpl.
    repeat split; try done. by eexists.
Qed.

(** ** Degenerate dimensions *)

(** A missing or non-numeric dimension (NaN), a zero or an infinite one is
    never labelled [landscape] or [portrait]: the label is [other], whatever
    the second dimension is. *)
Theorem classify_degenerate (x : JS.number) :
  classify S754_nan x = "other" ∧ classify x S754_nan = "other" ∧
  (∀ s, classify (S754_zero s) x = "other") ∧
  (∀ s, classify x (S754_zero s) = "other") ∧
  (∀ s, classify (S754_infinity s) x = "other") ∧
  (∀ s, classify x (S754_infinity s) = "other").
Proof.
  unfold classify, JS.div, JS.ge, JS.le, JS.lit_1_70, JS.lit_1_80,
    JS.lit_0_50, JS.lit_0_60.
  repeat split; intros; destruct x as [[]|[]| |[] m e]; try reflexivity;
    destruct s; reflexivity.
Qed.

(** ** Storage keys of different runs *)

Lemma below_16 (n : N) :
  (n < 16)%N ->
  n ∈ [0; 1; 2; 3; 4; 5; 6; 7; 8; 9; 10; 11; 12; 13; 14; 15]%N.
Proof.
  intros Hn.
  destruct n as [|p]; [set_solver|].
  do 4 (try match goal with q : positive |- _ => destruct q end);
    try lia; set_solver.
Qed.

Lemma hex_digit_injective n1 n2 :
  (n1 < 16)%N -> (n2 < 16)%N -> JS.hex_digit n1 = JS.hex_digit n2 -> n1 = n2.
Proof.
  intros H1 H2. apply below_16 in H1, H2.
  repeat (apply elem_of_cons in H1 as [->|H1]);
    try (by apply elem_of_nil in H1);
    repeat (apply elem_of_cons in H2 as [->|H2]);
    try (by apply elem_of_nil in H2);
    simpl; intros Heq; try reflexivity; discriminate Heq.
Qed.

Lemma toHex_injective bs1 bs2 : JS.toHex bs1 = JS.toHex bs2 -> bs1 = bs2.
Proof.
  revert bs2. induction bs1 as [|b1 bs1 IH]; intros [|b2 bs2]; simpl;
    try done.
  intros [= Hhi Hlo Hrest]. f_equal; [|by apply IH].
  pose proof (Byte.to_N_bounded b1). pose proof (Byte.to_N_bounded b2).
  apply hex_digit_injective in Hhi;
    [|apply N.Div0.div_lt_upper_bound; lia|apply N.Div0.div_lt_upper_bound; lia].
  apply hex_digit_injective in Hlo;
    [|apply N.mod_lt; lia|apply N.mod_lt; lia].
  assert (Byte.to_N b1 = Byte.to_N b2) as HN.
  { rewrite (N.div_mod (Byte.to_N b1) 16), (N.div_mod (Byte.to_N b2) 16) by lia.
    by rewrite Hhi, Hlo. }
  pose proof (Byte.of_to_N b1) as Hb1. rewrite HN, Byte.of_to_N in Hb1.
  congruence.
Qed.

Lemma ratio_of_cases env v :
  ratio_of env v = None ∨ ∃ label, ratio_of env v = Some label ∧ label ∈ labels.
Proof.
  unfold ratio_of. destruct (bool_decide _); [|by left].
  destruct (probe_dims env _) as [width height| |]; [|by left|by left].
  right. eexists. split; [done|]. apply classify_label.
Qed.

Lemma key_of_injective r1 r2 b1 b2 :
  (r1 = None ∨ ∃ label, r1 = Some label ∧ label ∈ labels) ->
  (r2 = None ∨ ∃ label, r2 = Some label ∧ label ∈ labels) ->
  key_of r1 b1 = key_of r2 b2 -> r1 = r2 ∧ b1 = b2.
Proof.
  unfold key_of, labels.
  intros [->|(l1 & -> & H1)] [->|(l2 & -> & H2)];
    repeat (apply elem_of_cons in H1 as [->|H1]);
    try (by apply elem_of_nil in H1);
    repeat (apply elem_of_cons in H2 as [->|H2]);
    try (by apply elem_of_nil in H2);
    cbv [JS.template]; intros Heq;
    try (cbv [String.append] in Heq; discriminate Heq).
  all: split; [done|]; apply toHex_injective.
  all: apply (inj (String.append _)), (inj (String.append "/")) in Heq.
  all: by apply append_inv_tail in Heq.
Qed.

(** Two runs that drew different random bytes store under different keys,
    whatever labels their probes produced. *)
Theorem different_bytes_give_different_keys env1 env2 v1 v2 :
  randomBytes env1 32 ≠ randomBytes env2 32 ->
  key_of (ratio_of env1 v1) (randomBytes env1 32) ≠
  key_of (ratio_of env2 v2) (randomBytes env2 32).
Proof.
  intros Hne Heq. apply Hne.
  by apply (key_of_injective _ _ _ _ (ratio_of_cases env1 v1)
              (ratio_of_cases env2 v2)) in Heq as [_ ?].
Qed.

Lemma different_bytes_give_different_keys_witness :
  key_of (ratio_of (Sample.env_of 0 0 None Byte.x11) "v1")
    (randomBytes (Sample.env_of 0 0 None Byte.x11) 32) ≠
  key_of (ratio_of (Sample.env_of 1 0 None Byte.x22) "v1")
    (randomBytes (Sample.env_of 1 0 None Byte.x22) 32).
Proof.
  apply different_bytes_give_different_keys. vm_compute. discriminate.
Defined.

(** ** Success *)

(** A request that passes the validations, on a host where the probe does
    not throw, the remux exits with zero after writing its output and the
    store accepts, is answered 200 with the record whose locator is
    [https://<bucket>.s3.<region>.amazonaws.com/<key>]; the Staging File is
    gone when the answer is returned. *)
Theorem run_completes env cfg req w v :
  params_videoId req = Some v ->
  first_failure env cfg req w handler_order = None ->
  probe_passes env v = true -> remux_passes env v = true ->
  s3_reject env (s3Bucket cfg) (key_of (ratio_of env v) (randomBytes env 32))
    = None ->
  ∃ resp,
    (run env cfg req w).1 = Return resp ∧ status resp = 200 ∧
    videoURL (body resp) =
      Some ("https://" +:+ s3Bucket cfg +:+ ".s3." +:+ s3Region cfg
              +:+ ".amazonaws.com/"
              +:+ key_of (ratio_of env v) (randomBytes env 32)) ∧
    disk (run env cfg req w).2 !! tempFilePath_of v = None.
Proof.
  intros Hv Hff Hprobe Hremux Hstore.
  destruct (run_validated _ _ _ _ Hff)
    as (v' & video & f & Hv' & _ & _ & _ & _ & _ & Hrun).
  assert (v' = v) as -> by congruence.
  rewrite Hrun, after_validation_cases.
  pose proof (stage_of_inv env cfg v f w) as Hinv.
  destruct (stage_of env cfg v f w) as [| | | |data]; cbn [fst snd].
  - destruct Hinv; congruence.
  - destruct Hinv; congruence.
  - destruct Hinv; congruence.
  - destruct Hinv; congruence.
  - eexists. split; [done|]. split; [done|]. split; [done|].
    cbn [disk]. by rewrite lookup_delete_eq.
Qed.

Lemma run_completes_witness :
  ∃ resp,
    (run Sample.env_ok Sample.cfg
       (Sample.request "v1" "token-u1" Sample.clip) Sample.world).1
      = Return resp ∧ status resp = 200.
Proof.
  destruct (run_completes Sample.env_ok Sample.cfg
              (Sample.request "v1" "token-u1" Sample.clip) Sample.world "v1")
    as (resp & Hresp & Hstatus & _); try (vm_compute; reflexivity).
  by exists resp.
Defined.

(** ** The label as a function of the fraction *)

(** For integer dimensions below 2^48 the classifier computes the label of
    the exact fraction. *)
Lemma classify_integers w h :
  0 < w < 2 ^ 48 -> 0 < h < 2 ^ 48 ->
  classify (JS.of_Z w) (JS.of_Z h) = classify_exact w h.
Proof.
  intros Hw Hh.
  destruct (div_integers w h) as (m & ez & Hdiv & Hm & Hez & Hnear); [lia|lia|].
  unfold classify, classify_exact. rewrite Hdiv.
  unfold JS.ge, JS.le, JS.lit_1_70, JS.lit_1_80, JS.lit_0_50, JS.lit_0_60.
  assert (SFleb (S754_finite false 7656119366529843 (-52))
            (S754_finite false m ez) = (17 * h <=? 10 * w)) as ->.
  { apply eq_true_iff_eq. rewrite Z.leb_le.
    apply const_le_quotient; decimal_side. }
  assert (SFleb (S754_finite false m ez)
            (S754_finite false 8106479329266893 (-52)) = (10 * w <=? 18 * h))
    as ->.
  { apply eq_true_iff_eq. rewrite Z.leb_le.
    apply quotient_le_const; decimal_side. }
  assert (SFleb (S754_finite false 4503599627370496 (-53))
            (S754_finite false m ez) = (5 * h <=? 10 * w)) as ->.
  { apply eq_true_iff_eq. rewrite Z.leb_le.
    apply const_le_quotient; decimal_side. }
  assert (SFleb (S754_finite false m ez)
            (S754_finite false 5404319552844595 (-53)) = (10 * w <=? 6 * h))
    as ->.
  { apply eq_true_iff_eq. rewrite Z.leb_le.
    apply quotient_le_const; decimal_side. }
  reflexivity.
Qed.

Lemma cross_le a b w h w' h' :
  0 < h -> 0 < h' -> w * h' = w' * h ->
  (a * h <=? b * w) = (a * h' <=? b * w').
Proof.
  intros Hh Hh' Hcross. apply eq_true_iff_eq. rewrite !Z.leb_le.
  rewrite (Z.mul_le_mono_pos_r (a * h) (b * w) h') by done.
  rewrite (Z.mul_le_mono_pos_r (a * h') (b * w') h) by done.
  replace (b * w * h') with (b * (w * h')) by ring.
  replace (b * w' * h) with (b * (w' * h)) by ring.
  rewrite Hcross.
  replace (a * h * h') with (a * h' * h) by ring. done.
Qed.

Lemma cross_ge a b w h w' h' :
  0 < h -> 0 < h' -> w * h' = w' * h ->
  (b * w <=? a * h) = (b * w' <=? a * h').
Proof.
  intros Hh Hh' Hcross. apply eq_true_iff_eq. rewrite !Z.leb_le.
  rewrite (Z.mul_le_mono_pos_r (b * w) (a * h) h') by done.
  rewrite (Z.mul_le_mono_pos_r (b * w') (a * h') h) by done.
  replace (b * w * h') with (b * (w * h')) by ring.
  replace (b * w' * h) with (b * (w' * h)) by ring.
  rewrite Hcross.
  replace (a * h * h') with (a * h' * h) by ring. done.
Qed.

(** The label depends on the aspect ratio only: two pairs of integer
    dimensions below 2^48 in the same proportion get the same label, so
    scaling a frame never changes it. *)
Theorem classify_same_proportion w h w' h' :
  0 < w < 2 ^ 48 -> 0 < h < 2 ^ 48 -> 0 < w' < 2 ^ 48 -> 0 < h' < 2 ^ 48 ->
  w * h' = w' * h ->
  classify (JS.of_Z w) (JS.of_Z h) = classify (JS.of_Z w') (JS.of_Z h').
Proof.
  intros Hw Hh Hw' Hh' Hcross.
  rewrite !classify_integers by done. unfold classify_exact.
  rewrite (cross_le 17 10 w h w' h'), (cross_ge 18 10 w h w' h'),
    (cross_le 5 10 w h w' h'), (cross_ge 6 10 w h w' h') by lia.
  reflexivity.
Qed.

Lemma classify_same_proportion_witness :
  classify (JS.of_Z 3840) (JS.of_Z 2160) = classify (JS.of_Z 16) (JS.of_Z 9).
Proof. apply classify_same_proportion; lia. Defined.

(** Turning a [landscape] frame by a quarter turn gives a [portrait] one
    (integer dimensions below 2^48). *)
Theorem classify_quarter_turn w h :
  0 < w < 2 ^ 48 -> 0 < h < 2 ^ 48 ->
  classify (JS.of_Z w) (JS.of_Z h) = "landscape" ->
  classify (JS.of_Z h) (JS.of_Z w) = "portrait".
Proof.
  intros Hw Hh. rewrite !classify_integers by done. unfold classify_exact.
  destruct ((17 * h <=? 10 * w) && (10 * w <=? 18 * h)) eqn:Hland.
  - intros _. apply andb_true_iff in Hland as [H1 H2].
    apply Z.leb_le in H1, H2.
    replace ((17 * w <=? 10 * h) && (10 * h <=? 18 * w)) with false
      by (symmetry; apply andb_false_iff; left; apply Z.leb_gt; lia).
    replace ((5 * w <=? 10 * h) && (10 * h <=? 6 * w)) with true
      by (symmetry; apply andb_true_iff; split; apply Z.leb_le; lia).
    reflexivity.
  - destruct ((5 * h <=? 10 * w) && (10 * w <=? 6 * h)); intros [=].
Qed.

Lemma classify_quarter_turn_witness :
  classify (JS.of_Z 1080) (JS.of_Z 1920) = "portrait".
Proof.
  apply classify_quarter_turn; [lia | lia | vm_compute; reflexivity].
Defined.

(** ** The media type check *)

Lemma first_failure_in env cfg req w order e :
  first_failure env cfg req w order = Some e ->
  ∃ c, c ∈ order ∧ failure env cfg req w c = Some e.
Proof.
  induction order as [|c order IH]; [done|]. cbn [first_failure].
  destruct (failure env cfg req w c) as [e'|] eqn:Hc.
  - intros [= ->]. exists c. split; [apply list_elem_of_here|done].
  - intros H. destruct (IH H) as (c' & Hin & Hc').
    exists c'. split; [by apply list_elem_of_further|done].
Qed.

Lemma wrong_media_type_check env cfg req w c :
  failure env cfg req w c = Some (BadRequestError "wrong media type") ->
  c = CheckType.
Proof.
  destruct c; try done; unfold failure, record_of, principal_of, file_of.
  - by destruct (JS.truthy _).
  - by destruct (bearer _).
  - destruct (bearer _); [|done]. by destruct (jwt_subject _ _ _).
  - destruct (params_videoId req); [|done]. by destruct (db w !! _).
  - destruct (params_videoId req); [|done]. destruct (db w !! _); [|done].
    destruct (bearer _); [|done]. destruct (jwt_subject _ _ _); [|done].
    by destruct (bool_decide _).
  - by destruct (formData req !! "video") as [[]|].
  - destruct (formData req !! "video") as [[]|]; try done.
    by destruct (_ >? _).
Qed.

(** The declared media type has to be the text [video/mp4] itself: the run
    fails with the Bad-Request [wrong media type] exactly when the request
    got past every earlier check, the size check included, with a file of
    any other type. *)
Theorem media_type_must_be_mp4 env cfg req w :
  (run env cfg req w).1 = Throw (BadRequestError "wrong media type") ↔
  first_failure env cfg req w (access_checks ++ [CheckSize])%list = None ∧
  ∃ f, file_of req = Some f ∧ type f ≠ "video/mp4".
Proof.
  assert (handler_order = ((access_checks ++ [CheckSize]) ++ [CheckType])%list)
    as Horder by reflexivity.
  assert (failure env cfg req w CheckType =
            Some (BadRequestError "wrong media type") ↔
          ∃ f, file_of req = Some f ∧ type f ≠ "video/mp4") as Htype.
  { unfold failure. destruct (file_of req) as [f|].
    - destruct (decide (type f = "video/mp4")) as [Heq|Hne].
      + rewrite bool_decide_eq_false_2 by (by intros ?).
        split; [done|]. by intros (f' & [= <-] & ?).
      + rewrite bool_decide_eq_true_2 by done. split; [|done].
        intros _. by exists f.
    - split; [done|]. by intros (f' & [=] & _). }
  rewrite <- Htype.
  destruct (first_failure env cfg req w handler_order) as [e|] eqn:Hff.
  - rewrite (run_validation_failure _ _ _ _ _ Hff); cbn [fst].
    revert Hff. rewrite Horder, first_failure_app.
    destruct (first_failure env cfg req w (access_checks ++ [CheckSize]))
      as [e'|] eqn:Hearly.
    + intros [= ->]. split; [|by intros [[=] _]].
      intros [= ->]. exfalso.
      apply first_failure_in in Hearly as (c & Hin & Hc).
      apply wrong_media_type_check in Hc as ->.
      unfold access_checks in Hin. simpl in Hin.
      repeat (apply elem_of_cons in Hin as [Hin|Hin]; [discriminate|]).
      by apply elem_of_nil in Hin.
    + cbn [first_failure].
      destruct (failure env cfg req w CheckType) as [e1|] eqn:Hty.
      * intros [= ->]. split; [by intros [= ->]|]. by intros [_ [= ->]].
      * done.
  - destruct (run_validated _ _ _ _ Hff)
      as (v & video & f & _ & _ & _ & _ & _ & _ & Hrun).
    rewrite Hrun. split.
    + intros Hbad. by apply after_validation_not_bad_request in Hbad.
    + intros [_ Hty]. revert Hff. rewrite Horder, first_failure_app.
      destruct (first_failure env cfg req w (access_checks ++ [CheckSize]));
        [done|].
      cbn [first_failure]. by rewrite Hty.
Qed.

(** * The thumbnail handlers *)

(** ** Thumbnails kept in memory *)

(** What an upload does: it either throws and leaves the state as it was, or
    it passed every check, caches the image as [image/png] under the record
    identifier and rewrites the record's thumbnail URL. *)
Lemma upload_thumbnail_cases env cfg req s :
  (∃ e, InMemory.handlerUploadThumbnail env cfg req s = (Throw e, s)) ∨
  (∃ v video f,
     params_videoId req = Some v ∧ v ≠ "" ∧
     principal_of env (InMemory.api cfg) req = Some (userID video) ∧
     thumbnail_of req = Some f ∧ size f <= MAX_UPLOAD_SIZE ∧
     db (InMemory.world s) !! v = Some video ∧
     InMemory.handlerUploadThumbnail env cfg req s =
       (Return (respondWithJSON 200
                  (with_thumbnailURL video (InMemory.thumbnail_url cfg v))),
        {| InMemory.world :=
             (updateVideo
                (with_thumbnailURL video (InMemory.thumbnail_url cfg v))
                (InMemory.world s)).2;
           InMemory.videoThumbnails :=
             <[v := {| InMemory.data := payload f;
                       InMemory.mediaType := "image/png" |}]>
               (InMemory.videoThumbnails s) |})).
Proof.
  unfold InMemory.handlerUploadThumbnail, InMemory.bindS, InMemory.in_world,
    InMemory.retS, InMemory.throwS, InMemory.thumbnails_set,
    getBearerToken, validateJWT, getVideo, ret, throw,
    principal_of, thumbnail_of.
  destruct s as [w cache].
  destruct req as [[v|] [[tok|]] form]; simpl; try (left; eauto; fail).
  - destruct (negb (v =? "")%string) eqn:Hv; simpl; [|left; eauto].
    destruct (jwt_subject env tok (jwtSecret (InMemory.api cfg))) as [user|];
      simpl; [|left; eauto].
    destruct (form !! "thumbnail") as [[txt|f]|]; simpl; try (left; eauto; fail).
    destruct (size f >? MAX_UPLOAD_SIZE) eqn:Hsize; simpl; [left; eauto|].
    destruct (db w !! v) as [video|] eqn:Hvideo; simpl; [|left; eauto].
    destruct (bool_decide (userID video ≠ user)) eqn:Hu; simpl; [left; eauto|].
    right. exists v, video, f.
    apply bool_decide_eq_false in Hu. apply dec_stable in Hu. subst user.
    apply negb_true_iff, String.eqb_neq in Hv.
    repeat split; try done. lia.
  - destruct (negb (v =? "")%string); simpl; left; eauto.
Qed.

(** A rejected upload changes nothing: whatever the reason (no identifier,
    bad credentials, no file, a file over the limit, an unknown record, a
    requester who is not the owner), the cache and the table are as
    before. *)
Theorem rejected_thumbnail_upload_changes_nothing env cfg req s e :
  (InMemory.handlerUploadThumbnail env cfg req s).1 = Throw e ->
  (InMemory.handlerUploadThumbnail env cfg req s).2 = s.
Proof.
  destruct (upload_thumbnail_cases env cfg req s)
    as [[e' ->]|(v & video & f & _ & _ & _ & _ & _ & _ & ->)]; [done|].
  discriminate.
Qed.

Lemma rejected_thumbnail_upload_changes_nothing_witness :
  (InMemory.handlerUploadThumbnail Sample.env_ok ThumbSample.cfg
     (ThumbSample.request "v1" "token-u2" ThumbSample.image)
     ThumbSample.state).2 = ThumbSample.state.
Proof.
  apply (rejected_thumbnail_upload_changes_nothing _ _ _ _
           (UserForbiddenError "user not authorized")).
  vm_compute; reflexivity.
Defined.

(** An uploaded thumbnail can be fetched: after a successful upload, a
    request for the same record identifier, with or without credentials, is
    answered 200 with the uploaded bytes, [Cache-Control: no-store], and the
    content type [image/png] whatever type the upload declared. *)
Theorem thumbnail_round_trip env cfg req s resp f req' :
  (InMemory.handlerUploadThumbnail env cfg req s).1 = Return resp ->
  thumbnail_of req = Some f ->
  params_videoId req' = params_videoId req ->
  (InMemory.handlerGetThumbnail req'
     (InMemory.handlerUploadThumbnail env cfg req s).2).1 =
    Return {| raw_status := 200;
              raw_body := payload f;
              raw_headers := [("Content-Type", "image/png");
                              ("Cache-Control", "no-store")] |}.
Proof.
  destruct (upload_thumbnail_cases env cfg req s)
    as [[e' ->]|(v & video & f' & Hv & Hne & _ & Hf & _ & Hvideo & ->)];
    [done|].
  intros _ Hf' Hreq'. assert (f' = f) as -> by congruence.
  rewrite Hv in Hreq'. cbn [snd].
  unfold InMemory.handlerGetThumbnail, InMemory.bindS, InMemory.in_world,
    InMemory.retS, InMemory.throwS, InMemory.thumbnails_get, getVideo,
    updateVideo, set_db.
  rewrite Hreq'. cbn.
  apply String.eqb_neq in Hne. rewrite Hne. cbn.
  assert (is_Some (match db (InMemory.world s) !! id video with
                   | Some _ =>
                       <[id video :=
                           with_thumbnailURL video (InMemory.thumbnail_url cfg v)]>
                         (db (InMemory.world s))
                   | None => db (InMemory.world s)
                   end !! v)) as [row Hrow].
  { destruct (db (InMemory.world s) !! id video); [|by rewrite Hvideo].
    destruct (decide (id video = v)) as [->|Hother].
    - rewrite lookup_insert_eq. eauto.
    - rewrite lookup_insert_ne by done. by rewrite Hvideo. }
  rewrite Hrow. cbn. by rewrite lookup_insert_eq.
Qed.

Lemma thumbnail_round_trip_witness :
  (InMemory.handlerGetThumbnail (ThumbSample.fetch "v1")
     (InMemory.handlerUploadThumbnail Sample.env_ok ThumbSample.cfg
        (ThumbSample.request "v1" "token-u1" ThumbSample.image)
        ThumbSample.state).2).1 =
    Return {| raw_status := 200;
              raw_body := payload ThumbSample.image;
              raw_headers := [("Content-Type", "image/png");
                              ("Cache-Control", "no-store")] |}.
Proof.
  eapply (thumbnail_round_trip Sample.env_ok ThumbSample.cfg
            (ThumbSample.request "v1" "token-u1" ThumbSample.image)
            ThumbSample.state _ ThumbSample.image (ThumbSample.fetch "v1"));
    vm_compute; reflexivity.
Defined.

(** What a fetch answers, read off the state. *)
Lemma get_thumbnail_cases req s :
  InMemory.handlerGetThumbnail req s =
    (match params_videoId req with
     | Some v =>
         if negb (v =? "")%string then
           match db (InMemory.world s) !! v with
           | Some _ =>
               match InMemory.videoThumbnails s !! v with
               | Some t =>
                   Return {| raw_status := 200;
                             raw_body := InMemory.data t;
                             raw_headers :=
                               [("Content-Type", InMemory.mediaType t);
                                ("Cache-Control", "no-store")] |}
               | None => Throw (NotFoundError "Thumbnail not found")
               end
           | None => Throw (NotFoundError "Couldn't find video")
           end
         else Throw (BadRequestError "Invalid video ID")
     | None => Throw (BadRequestError "Invalid video ID")
     end, s).
Proof.
  unfold InMemory.handlerGetThumbnail, InMemory.bindS, InMemory.in_world,
    InMemory.retS, InMemory.throwS, InMemory.thumbnails_get, getVideo.
  destruct s as [w cache]. destruct (params_videoId req) as [v|]; [|done].
  cbn. destruct (negb (v =? "")%string); [|done]. cbn.
  destruct (db w !! v); [|done]. cbn. by destruct (cache !! v).
Qed.

(** Fetching a thumbnail is a pure read keyed by the record identifier: it
    leaves the state as it is and its answer does not depend on the headers
    or the body of the request, so it needs no credentials.  A thumbnail
    whose record is no longer in the table is not served, and a record
    without a cached thumbnail is answered Not-Found. *)
Theorem get_thumbnail_is_a_pure_read req s :
  (InMemory.handlerGetThumbnail req s).2 = s ∧
  (∀ req', params_videoId req' = params_videoId req ->
           (InMemory.handlerGetThumbnail req' s).1 =
           (InMemory.handlerGetThumbnail req s).1) ∧
  (∀ v, params_videoId req = Some v -> v ≠ "" ->
        db (InMemory.world s) !! v = None ->
        (InMemory.handlerGetThumbnail req s).1 =
          Throw (NotFoundError "Couldn't find video")) ∧
  (∀ v, params_videoId req = Some v -> v ≠ "" ->
        is_Some (db (InMemory.world s) !! v) ->
        InMemory.videoThumbnails s !! v = None ->
        (InMemory.handlerGetThumbnail req s).1 =
          Throw (NotFoundError "Thumbnail not found")).
Proof.
  split; [by rewrite get_thumbnail_cases|]. split; [|split].
  - intros req' Hreq. rewrite !get_thumbnail_cases. cbn [fst]. by rewrite Hreq.
  - intros v Hv Hne Hgone. rewrite get_thumbnail_cases. cbn [fst].
    rewrite Hv, Hgone. apply String.eqb_neq in Hne. by rewrite Hne.
  - intros v Hv Hne [video Hvideo] Hnone. rewrite get_thumbnail_cases.
    cbn [fst]. rewrite Hv, Hvideo, Hnone.
    apply String.eqb_neq in Hne. by rewrite Hne.
Qed.

Lemma get_thumbnail_is_a_pure_read_witness :
  (InMemory.handlerGetThumbnail (ThumbSample.fetch "v1") ThumbSample.state).1 =
    Throw (NotFoundError "Thumbnail not found") ∧
  (InMemory.handlerGetThumbnail (ThumbSample.fetch "v9") ThumbSample.state).1 =
    Throw (NotFoundError "Couldn't find video").
Proof.
  split.
  - apply (proj2 (proj2 (proj2 (get_thumbnail_is_a_pure_read
                                  (ThumbSample.fetch "v1") ThumbSample.state)))
             "v1"); vm_compute; try reflexivity; [discriminate|eauto].
  - apply (proj1 (proj2 (proj2 (get_thumbnail_is_a_pure_read
                                  (ThumbSample.fetch "v9") ThumbSample.state)))
             "v9"); vm_compute; try reflexivity. discriminate.
Defined.

(** An upload only affects its own record identifier: whether it succeeds or
    not, fetching the thumbnail of any other identifier gives the answer it
    gave before. *)
Theorem thumbnail_upload_leaves_other_ids env cfg req s v req' v' :
  params_videoId req = Some v -> params_videoId req' = Some v' -> v' ≠ v ->
  (InMemory.handlerGetThumbnail req'
     (InMemory.handlerUploadThumbnail env cfg req s).2).1 =
  (InMemory.handlerGetThumbnail req' s).1.
Proof.
  intros Hv Hv' Hne.
  destruct (upload_thumbnail_cases env cfg req s)
    as [[e' ->]|(v0 & video & f & Hv0 & _ & _ & _ & _ & Hvideo & ->)];
    [done|].
  assert (v0 = v) as -> by congruence.
  rewrite !get_thumbnail_cases. cbn [fst snd InMemory.world InMemory.videoThumbnails].
  rewrite Hv'. destruct (negb (v' =? "")%string); [|done].
  rewrite lookup_insert_ne by done.
  unfold updateVideo, set_db. cbn [snd db].
  change (id (with_thumbnailURL video (InMemory.thumbnail_url cfg v)))
    with (id video).
  destruct (db (InMemory.world s) !! id video) eqn:Hrow; [|done].
  destruct (decide (id video = v')) as [<-|Hother].
  - by rewrite lookup_insert_eq, Hrow.
  - by rewrite lookup_insert_ne.
Qed.

Lemma thumbnail_upload_leaves_other_ids_witness :
  (InMemory.handlerGetThumbnail (ThumbSample.fetch "v2")
     (InMemory.handlerUploadThumbnail Sample.env_ok ThumbSample.cfg
        (ThumbSample.request "v1" "token-u1" ThumbSample.image)
        ThumbSample.state).2).1 =
  (InMemory.handlerGetThumbnail (ThumbSample.fetch "v2") ThumbSample.state).1.
Proof.
  apply (thumbnail_upload_leaves_other_ids _ _ _ _ "v1" _ "v2");
    try reflexivity. discriminate.
Defined.

Lemma MAX_UPLOAD_SIZE_value : MAX_UPLOAD_SIZE = 10 * 2 ^ 20.
Proof. reflexivity. Qed.

(** The thumbnail limit is 10 * 2^20 bytes, inclusive, and it is checked
    before the record is looked up: the upload fails with the Bad-Request
    [file exceeds upload limit] exactly when the request names a record,
    carries a valid token and a file of more than 10485760 bytes, whether or
    not the record exists or belongs to the requester. *)
Theorem thumbnail_limit_checked_before_record env cfg req s :
  MAX_UPLOAD_SIZE = 10485760 ∧
  ((InMemory.handlerUploadThumbnail env cfg req s).1 =
     Throw (BadRequestError "file exceeds upload limit") ↔
   JS.truthy (params_videoId req) = true ∧
   is_Some (principal_of env (InMemory.api cfg) req) ∧
   ∃ f, thumbnail_of req = Some f ∧ size f > 10485760).
Proof.
  split; [reflexivity|].
  change 10485760 with MAX_UPLOAD_SIZE.
  unfold InMemory.handlerUploadThumbnail, InMemory.bindS, InMemory.in_world,
    InMemory.retS, InMemory.throwS, InMemory.thumbnails_set,
    getBearerToken, validateJWT, getVideo, ret, throw,
    principal_of, thumbnail_of.
  destruct s as [w cache].
  destruct req as [[v|] [[tok|]] form]; simpl.
  - destruct (negb (v =? "")%string) eqn:Hv; simpl;
      [|split; [done|by intros [[=] _]]].
    destruct (jwt_subject env tok (jwtSecret (InMemory.api cfg))) as [user|];
      simpl; [|split; [done|by intros (_ & [? [=]] & _)]].
    destruct (form !! "thumbnail") as [[txt|f]|]; simpl;
      try (split; [done|by intros (_ & _ & ? & [=] & _)]).
    destruct (size f >? MAX_UPLOAD_SIZE) eqn:Hsize; simpl.
    + split; [intros _|done]. repeat split; eauto. exists f. split; [done|lia].
    + split; [|intros (_ & _ & f' & [= <-] & Hbig); lia].
      destruct (db w !! v) as [video|]; simpl; [|done].
      by destruct (bool_decide (userID video ≠ user)).
  - destruct (negb (v =? "")%string); simpl;
      (split; [done|]); [by intros (_ & [? [=]] & _)|by intros [[=] _]].
  - split; [done|by intros [[=] _]].
  - split; [done|by intros [[=] _]].
Qed.

(** ** Thumbnails written to the assets directory *)

Section AssetUpload.

Variable env : Env.
Variable mediaTypeToExt : string -> string.
Variable getAssetDiskPath getAssetURL : ApiConfig -> string -> string.

Lemma asset_upload_cases cfg req w :
  ((∃ e, OnDisk.handlerUploadThumbnail env mediaTypeToExt getAssetDiskPath
       getAssetURL cfg req w = (Throw e, w)) ∧
   ¬ ∃ v video f, asset_upload_accepts env cfg req w v video f) ∨
  (∃ v video f,
     asset_upload_accepts env cfg req w v video f ∧
     let name := v +:+ mediaTypeToExt (type f) in
     let video' := with_thumbnailURL video (getAssetURL cfg name) in
     OnDisk.handlerUploadThumbnail env mediaTypeToExt getAssetDiskPath
       getAssetURL cfg req w =
       (Return (respondWithJSON 200 video'),
        {| db := match db w !! id video with
                 | Some _ => <[id video := video']> (db w)
                 | None => db w
                 end;
           disk := <[getAssetDiskPath cfg name := payload f]> (disk w);
           store := store w |})).
Proof.
  unfold OnDisk.handlerUploadThumbnail, asset_upload_accepts, bind,
    getBearerToken, validateJWT, getVideo, updateVideo, Bun_write, ret, throw,
    set_db, set_disk, principal_of, thumbnail_of.
  destruct req as [[v|] [[tok|]] form]; simpl.
  - destruct (negb (v =? "")%string) eqn:Hv; simpl.
    2:{ left. split; [eauto|]. intros (? & ? & ? & [= <-] & Hne & _).
        apply negb_false_iff, String.eqb_eq in Hv. done. }
    destruct (jwt_subject env tok (jwtSecret cfg)) as [user|]; simpl.
    2:{ left. split; [eauto|]. by intros (? & ? & ? & _ & _ & _ & [=] & _). }
    destruct (db w !! v) as [video|] eqn:Hvideo; simpl.
    2:{ left. split; [eauto|].
        intros (? & ? & ? & [= <-] & _ & Hrow & _). congruence. }
    destruct (bool_decide (userID video ≠ user)) eqn:Hu; simpl.
    { left. split; [eauto|].
      intros (? & ? & ? & [= <-] & _ & Hrow & Hp & _).
      apply bool_decide_eq_true in Hu. congruence. }
    destruct (form !! "thumbnail") as [[txt|f]|]; simpl;
      try (left; split; [eauto|];
           by intros (? & ? & ? & _ & _ & _ & _ & [=] & _)).
    destruct (size f >? MAX_UPLOAD_SIZE) eqn:Hsize; simpl.
    { left. split; [eauto|].
      intros (? & ? & ? & _ & _ & _ & _ & [= <-] & Hle & _). lia. }
    destruct (negb (type f =? "")%string) eqn:Hty; simpl.
    2:{ left. split; [eauto|].
        intros (? & ? & ? & _ & _ & _ & _ & [= <-] & _ & Hne).
        apply negb_false_iff, String.eqb_eq in Hty. done. }
    right. exists v, video, f.
    apply bool_decide_eq_false in Hu. apply dec_stable in Hu. subst user.
    apply negb_true_iff, String.eqb_neq in Hv, Hty.
    repeat split; try done. lia.
  - left. destruct (negb (v =? "")%string); simpl;
      (split; [eauto|]); by intros (? & ? & ? & _ & _ & _ & [=] & _).
  - left. split; [eauto|]. by intros (? & ? & ? & [=] & _).
  - left. split; [eauto|]. by intros (? & ? & ? & [=] & _).
Qed.

(** A rejected upload changes nothing: no file is written and no row is
    touched unless every check has passed. *)
Theorem rejected_asset_upload_changes_nothing cfg req w e :
  (OnDisk.handlerUploadThumbnail env mediaTypeToExt getAssetDiskPath
     getAssetURL cfg req w).1 = Throw e ->
  (OnDisk.handlerUploadThumbnail env mediaTypeToExt getAssetDiskPath
     getAssetURL cfg req w).2 = w.
Proof.
  destruct (asset_upload_cases cfg req w)
    as [[[e' ->] _]|(v & video & f & _ & Hrun)]; [done|].
  cbv zeta in Hrun. rewrite Hrun. discriminate.
Qed.

(** An upload is accepted exactly when the request names a record, carries a
    valid token of the record's owner and a file of at most 10 * 2^20 bytes
    with a non-empty media type.  It then writes the file's bytes to the
    asset path of [<id><ext>], sets the record's thumbnail URL to the asset
    URL of the same name and leaves the record's video locator, every other
    file and the object store as they were. *)
Theorem asset_upload_accepted cfg req w :
  ((∃ resp,
      (OnDisk.handlerUploadThumbnail env mediaTypeToExt getAssetDiskPath
         getAssetURL cfg req w).1 = Return resp) ↔
   ∃ v video f, asset_upload_accepts env cfg req w v video f) ∧
  (∀ v video f, asset_upload_accepts env cfg req w v video f ->
     let name := v +:+ mediaTypeToExt (type f) in
     ∃ resp,
       (OnDisk.handlerUploadThumbnail env mediaTypeToExt getAssetDiskPath
          getAssetURL cfg req w).1 = Return resp ∧
       status resp = 200 ∧
       thumbnailURL (body resp) = Some (getAssetURL cfg name) ∧
       videoURL (body resp) = videoURL video ∧
       disk (OnDisk.handlerUploadThumbnail env mediaTypeToExt
               getAssetDiskPath getAssetURL cfg req w).2
         !! getAssetDiskPath cfg name = Some (payload f) ∧
       (∀ p, p ≠ getAssetDiskPath cfg name ->
             disk (OnDisk.handlerUploadThumbnail env mediaTypeToExt
                     getAssetDiskPath getAssetURL cfg req w).2 !! p
               = disk w !! p) ∧
       store (OnDisk.handlerUploadThumbnail env mediaTypeToExt
                getAssetDiskPath getAssetURL cfg req w).2 = store w ∧
       (id video = v ->
        db (OnDisk.handlerUploadThumbnail env mediaTypeToExt
              getAssetDiskPath getAssetURL cfg req w).2 !! v
          = Some (body resp))).
Proof.
  destruct (asset_upload_cases cfg req w)
    as [[[e' Hrun] Hno]|(v & video & f & Hacc & Hrun)].
  - rewrite Hrun. split; [|intros v video f Hacc; destruct Hno; eauto].
    split; [by intros [? [=]]|intros Hacc; destruct Hno; eauto].
  - cbv zeta in Hrun. rewrite Hrun. cbn [fst snd]. split.
    { split; [intros _; eauto|intros _; eauto]. }
    intros v' video' f' Hacc'.
    destruct Hacc as (Hv & _ & Hvideo & _ & Hf & _).
    destruct Hacc' as (Hv' & _ & Hvideo' & _ & Hf' & _).
    assert (v' = v) as -> by congruence.
    assert (video' = video) as -> by congruence.
    assert (f' = f) as -> by congruence.
    cbv zeta. eexists. split; [done|]. cbn [status body thumbnailURL videoURL
      with_thumbnailURL respondWithJSON disk store db].
    repeat split; try done.
    + by rewrite lookup_insert_eq.
    + intros p Hp. by rewrite lookup_insert_ne.
    + intros <-. rewrite Hvideo. by rewrite lookup_insert_eq.
Qed.

End AssetUpload.

Lemma rejected_asset_upload_changes_nothing_witness :
  (OnDisk.handlerUploadThumbnail Sample.env_ok ThumbSample.mediaTypeToExt
     ThumbSample.getAssetDiskPath ThumbSample.getAssetURL Sample.cfg
     (ThumbSample.request "v1" "token-u2" ThumbSample.image) Sample.world).2
    = Sample.world.
Proof.
  apply (rejected_asset_upload_changes_nothing _ _ _ _ _ _ _
           (UserForbiddenError "user not authorized")).
  vm_compute; reflexivity.
Defined.

Lemma asset_upload_accepted_witness :
  ∃ resp,
    (OnDisk.handlerUploadThumbnail Sample.env_ok ThumbSample.mediaTypeToExt
       ThumbSample.getAssetDiskPath ThumbSample.getAssetURL Sample.cfg
       (ThumbSample.request "v1" "token-u1" ThumbSample.image)
       Sample.world).1 = Return resp ∧
    thumbnailURL (body resp) = Some "http://localhost:8091/assets/v1.jpg" ∧
    videoURL (body resp) = videoURL Sample.v1.
Proof.
  destruct (proj2 (asset_upload_accepted Sample.env_ok
                     ThumbSample.mediaTypeToExt ThumbSample.getAssetDiskPath
                     ThumbSample.getAssetURL Sample.cfg
                     (ThumbSample.request "v1" "token-u1" ThumbSample.image)
                     Sample.world) "v1" Sample.v1 ThumbSample.image)
    as (resp & Hresp & _ & Hthumb & Hvideo & _).
  - repeat split; try (vm_compute; reflexivity); vm_compute; discriminate.
  - exists resp. split; [exact Hresp|]. split; [exact Hthumb|exact Hvideo].
Defined.

(** An upload whose file declares no media type is refused with the
    Bad-Request [media type missing], after the record and its owner were
    checked and before anything is written. *)
Theorem asset_upload_needs_media_type env mediaTypeToExt getAssetDiskPath
  getAssetURL cfg req w v video f :
  params_videoId req = Some v -> v ≠ "" ->
  db w !! v = Some video ->
  principal_of env cfg req = Some (userID video) ->
  thumbnail_of req = Some f -> size f <= MAX_UPLOAD_SIZE -> type f = "" ->
  OnDisk.handlerUploadThumbnail env mediaTypeToExt getAssetDiskPath
    getAssetURL cfg req w =
    (Throw (BadRequestError "media type missing"), w).
Proof.
  unfold OnDisk.handlerUploadThumbnail, bind, getBearerToken, validateJWT,
    getVideo, ret, throw, principal_of, thumbnail_of.
  intros Hv Hne Hvideo Hp Hf Hsize Hty.
  rewrite Hv. cbn. apply String.eqb_neq in Hne. rewrite Hne. cbn.
  destruct (bearer (headers req)) as [tok|]; [|done]. cbn.
  rewrite Hp. cbn. rewrite Hvideo. cbn.
  rewrite bool_decide_eq_false_2 by (by intros ?). cbn.
  destruct (formData req !! "thumbnail") as [[txt|f']|]; try done.
  injection Hf as ->. cbn.
  destruct (size f >? MAX_UPLOAD_SIZE) eqn:Hgt; [lia|]. cbn.
  by rewrite Hty.
Qed.

Lemma asset_upload_needs_media_type_witness :
  OnDisk.handlerUploadThumbnail Sample.env_ok ThumbSample.mediaTypeToExt
    ThumbSample.getAssetDiskPath ThumbSample.getAssetURL Sample.cfg
    (ThumbSample.request "v1" "token-u1"
       {| size := 3; type := ""; payload := payload ThumbSample.image |})
    Sample.world =
    (Throw (BadRequestError "media type missing"), Sample.world).
Proof.
  apply (asset_upload_needs_media_type _ _ _ _ _ _ _ "v1" Sample.v1
           {| size := 3; type := ""; payload := payload ThumbSample.image |});
    try (vm_compute; reflexivity); vm_compute; discriminate.
Defined.

(** ** Thumbnails in memory: acceptance and growth *)

(** An upload is accepted exactly when the request names a record, carries
    a valid token of the record's owner and a file of at most 10 * 2^20
    bytes.  The answer is then the record with its thumbnail URL set to
    [http://localhost:<port>/api/thumbnails/<id>] and its video locator
    untouched. *)
Theorem thumbnail_upload_accepted env cfg req s :
  ((∃ resp, (InMemory.handlerUploadThumbnail env cfg req s).1 = Return resp) ↔
   ∃ v video f,
     params_videoId req = Some v ∧ v ≠ "" ∧
     principal_of env (InMemory.api cfg) req = Some (userID video) ∧
     thumbnail_of req = Some f ∧ size f <= MAX_UPLOAD_SIZE ∧
     db (InMemory.world s) !! v = Some video) ∧
  (∀ resp v video,
     (InMemory.handlerUploadThumbnail env cfg req s).1 = Return resp ->
     params_videoId req = Some v ->
     db (InMemory.world s) !! v = Some video ->
     status resp = 200 ∧
     thumbnailURL (body resp) =
       Some ("http://localhost:" +:+ InMemory.port cfg
               +:+ "/api/thumbnails/" +:+ v) ∧
     videoURL (body resp) = videoURL video ∧
     id (body resp) = id video ∧ userID (body resp) = userID video).
Proof.
  unfold InMemory.handlerUploadThumbnail, InMemory.bindS, InMemory.in_world,
    InMemory.retS, InMemory.throwS, InMemory.thumbnails_set,
    getBearerToken, validateJWT, getVideo, updateVideo, ret, throw,
    principal_of, thumbnail_of.
  destruct s as [w cache].
  destruct req as [[v|] [[tok|]] form]; simpl.
  - destruct (negb (v =? "")%string) eqn:Hv; simpl.
    2:{ apply negb_false_iff, String.eqb_eq in Hv.
        split; [|by intros ? ? ? [=]].
        split; [by intros [? [=]]|by intros (? & ? & ? & [= <-] & ? & _)]. }
    destruct (jwt_subject env tok (jwtSecret (InMemory.api cfg))) as [user|];
      simpl.
    2:{ split; [|by intros ? ? ? [=]].
        split; [by intros [? [=]]|by intros (? & ? & ? & _ & _ & [=] & _)]. }
    destruct (form !! "thumbnail") as [[txt|f]|]; simpl;
      try (split; [|by intros ? ? ? [=]];
           split; [by intros [? [=]]
                  |by intros (? & ? & ? & _ & _ & _ & [=] & _)]).
    destruct (size f >? MAX_UPLOAD_SIZE) eqn:Hsize; simpl.
    { split; [|by intros ? ? ? [=]].
      split; [by intros [? [=]]|].
      intros (? & ? & ? & _ & _ & _ & [= <-] & ? & _). lia. }
    destruct (db w !! v) as [video|] eqn:Hvideo; simpl.
    2:{ split; [|by intros ? ? ? [=]].
        split; [by intros [? [=]]|].
        intros (? & ? & ? & [= <-] & _ & _ & _ & _ & Hrow). congruence. }
    destruct (bool_decide (userID video ≠ user)) eqn:Hu; simpl.
    { apply bool_decide_eq_true in Hu.
      split; [|by intros ? ? ? [=]].
      split; [by intros [? [=]]|].
      intros (? & ? & ? & [= <-] & _ & Hp & _ & _ & Hrow). congruence. }
    apply bool_decide_eq_false in Hu. apply dec_stable in Hu. subst user.
    apply negb_true_iff, String.eqb_neq in Hv. split.
    + split; [intros _|eauto]. exists v, video, f. repeat split; try done. lia.
    + intros resp v' video' [= <-] [= <-] Hrow.
      assert (video' = video) as -> by congruence. done.
  - split; [|destruct (negb _); by intros ? ? ? [=]].
    destruct (negb _); simpl;
      (split; [by intros [? [=]]|]);
      [by intros (? & ? & ? & _ & _ & [=] & _)
      |by intros (? & ? & ? & _ & _ & [=] & _)].
  - split; [|by intros ? ? ? [=]].
    split; [by intros [? [=]]|by intros (? & ? & ? & [=] & _)].
  - split; [|by intros ? ? ? [=]].
    split; [by intros [? [=]]|by intros (? & ? & ? & [=] & _)].
Qed.

Lemma thumbnail_upload_accepted_witness :
  ∃ resp,
    (InMemory.handlerUploadThumbnail Sample.env_ok ThumbSample.cfg
       (ThumbSample.request "v1" "token-u1" ThumbSample.image)
       ThumbSample.state).1 = Return resp ∧
    thumbnailURL (body resp) =
      Some "http://localhost:8091/api/thumbnails/v1".
Proof.
  destruct (proj2 (proj1 (thumbnail_upload_accepted Sample.env_ok
                            ThumbSample.cfg
                            (ThumbSample.request "v1" "token-u1"
                               ThumbSample.image)
                            ThumbSample.state))) as [resp Hresp].
  - exists "v1", Sample.v1, ThumbSample.image.
    repeat split; try (vm_compute; reflexivity); vm_compute; discriminate.
  - exists resp. split; [exact Hresp|].
    apply (proj2 (thumbnail_upload_accepted Sample.env_ok ThumbSample.cfg
                    (ThumbSample.request "v1" "token-u1" ThumbSample.image)
                    ThumbSample.state) resp "v1" Sample.v1 Hresp);
      vm_compute; reflexivity.
Defined.

(** Nothing is ever evicted: a thumbnail that is cached stays cached through
    any upload and any fetch, until an upload for the same record replaces
    it. *)
Theorem thumbnail_cache_only_grows env cfg req s k :
  is_Some (InMemory.videoThumbnails s !! k) ->
  is_Some (InMemory.videoThumbnails
             (InMemory.handlerUploadThumbnail env cfg req s).2 !! k) ∧
  is_Some (InMemory.videoThumbnails
             (InMemory.handlerGetThumbnail req s).2 !! k).
Proof.
  intros Hk. split; [|by rewrite get_thumbnail_cases].
  destruct (upload_thumbnail_cases env cfg req s)
    as [[e' ->]|(v & video & f & _ & _ & _ & _ & _ & _ & ->)]; [done|].
  cbn [snd InMemory.videoThumbnails].
  destruct (decide (v = k)) as [->|Hne].
  - rewrite lookup_insert_eq. eauto.
  - by rewrite lookup_insert_ne.
Qed.

Lemma thumbnail_cache_only_grows_witness :
  let s1 := (InMemory.handlerUploadThumbnail Sample.env_ok ThumbSample.cfg
               (ThumbSample.request "v1" "token-u1" ThumbSample.image)
               ThumbSample.state).2 in
  is_Some (InMemory.videoThumbnails
             (InMemory.handlerUploadThumbnail Sample.env_ok ThumbSample.cfg
                (ThumbSample.request "v7" "token-u1" ThumbSample.image) s1).2
             !! "v1").
Proof.
  apply thumbnail_cache_only_grows. vm_compute. eauto.
Defined.

(** ** The probe adapter *)

(** [getVideoAspectRatio] hands out a label only after the tool exited with
    zero, and the label is then one of [landscape], [portrait], [other]; on
    any other exit it returns [undefined].  The call changes nothing but the
    files the tool wrote. *)
Theorem probe_adapter_outcome env filePath w :
  let o := exec env (ffprobe_argv filePath) in
  let r := getVideoAspectRatio env filePath w in
  (∀ label, r.1 = Return (Some label) ->
            label ∈ labels ∧ exit_code o = Some 0) ∧
  (exit_code o ≠ Some 0 -> r.1 = Return None) ∧
  db r.2 = db w ∧ store r.2 = store w ∧
  disk r.2 = apply_writes (writes o) (disk w).
Proof.
  intros o r. subst r.
  unfold getVideoAspectRatio, bind, Bun_spawn, text, ret, throw; simpl.
  fold o.
  destruct (decide (exit_code o = Some 0)) as [Hzero|Hnz].
  - rewrite bool_decide_eq_true_2 by done. simpl.
    destruct (probe_dims env (out_text o)) as [width height| |]; simpl;
      (split; [|done]); intros lbl [= <-].
    split; [apply classify_label|done].
  - rewrite bool_decide_eq_false_2 by done. simpl.
    split; [by intros lbl [=]|done].
Qed.

Lemma probe_adapter_outcome_witness :
  (getVideoAspectRatio Sample.env_probe_fails "/tmp/v1.mp4" Sample.world).1
    = Return None ∧
  exit_code (exec Sample.env_ok (ffprobe_argv "/tmp/v1.mp4")) = Some 0.
Proof.
  split.
  - apply (probe_adapter_outcome Sample.env_probe_fails "/tmp/v1.mp4"
             Sample.world).
    vm_compute. discriminate.
  - apply (proj1 (probe_adapter_outcome Sample.env_ok "/tmp/v1.mp4"
                    Sample.world) "landscape").
    vm_compute; reflexivity.
Defined.

(** ** Objects are never deleted *)

(** A run never removes an object from the store: whatever key held an
    object before a run holds one after it, so the artifact of an earlier
    upload stays behind when a later one rewrites the record's locator. *)
Theorem store_only_grows env cfg req w bk :
  is_Some (store w !! bk) -> is_Some (store (run env cfg req w).2 !! bk).
Proof.
  intros Hbk.
  destruct (first_failure env cfg req w handler_order) as [e0|] eqn:Hff.
  { by rewrite (run_validation_failure _ _ _ _ _ Hff). }
  destruct (run_validated _ _ _ _ Hff)
    as (v & video & f & _ & _ & _ & _ & _ & _ & Hrun).
  rewrite Hrun, after_validation_cases.
  destruct (stage_of env cfg v f w); cbn [snd store]; try done.
  match goal with |- is_Some (<[?k := _]> _ !! _) =>
    destruct (decide (k = bk)) as [->|Hne] end.
  - rewrite lookup_insert_eq. eauto.
  - by rewrite lookup_insert_ne.
Qed.

Lemma store_only_grows_witness :
  let w1 := (run Sample.env_ok Sample.cfg
               (Sample.request "v1" "token-u1" Sample.clip) Sample.world).2 in
  let w2 := (run (Sample.env_of 0 0 None Byte.x22) Sample.cfg
               (Sample.request "v1" "token-u1" Sample.other_clip) w1).2 in
  is_Some (store w2 !! ("tubely",
                        "landscape/" +:+ JS.toHex (replicate 32 Byte.xab)
                          +:+ ".mp4")).
Proof.
  apply store_only_grows. vm_compute. eauto.
Defined.

(** ** The two upload handlers on one record *)

(** What a successful run leaves in the table. *)
Lemma run_success_inv env cfg req w resp :
  (run env cfg req w).1 = Return resp ->
  ∃ v video,
    params_videoId req = Some v ∧ db w !! v = Some video ∧
    resp = respondWithJSON 200
             (with_videoURL video
                (url_of cfg (key_of (ratio_of env v) (randomBytes env 32)))) ∧
    db (run env cfg req w).2 =
      match db w !! id video with
      | Some _ => <[id video := body resp]> (db w)
      | None => db w
      end.
Proof.
  destruct (first_failure env cfg req w handler_order) as [e0|] eqn:Hff.
  { by rewrite (run_validation_failure _ _ _ _ _ Hff). }
  destruct (run_validated _ _ _ _ Hff)
    as (v & video & f & Hv & Hvideo & _ & _ & _ & _ & Hrun).
  rewrite Hrun, after_validation_cases.
  destruct (stage_of env cfg v f w); cbn [fst snd]; try done.
  intros [= <-]. by exists v, video.
Qed.

(** Uploading a thumbnail and uploading a video for the same record do not
    undo each other: in either order, when both are accepted the row ends up
    with the thumbnail URL of the one and the video locator of the other. *)
Theorem uploads_keep_each_others_field env mediaTypeToExt getAssetDiskPath
  getAssetURL cfg req_t req_v w v video :
  db w !! v = Some video -> id video = v ->
  params_videoId req_t = Some v -> params_videoId req_v = Some v ->
  (∀ r1 r2,
     (OnDisk.handlerUploadThumbnail env mediaTypeToExt getAssetDiskPath
        getAssetURL cfg req_t w).1 = Return r1 ->
     (run env cfg req_v
        (OnDisk.handlerUploadThumbnail env mediaTypeToExt getAssetDiskPath
           getAssetURL cfg req_t w).2).1 = Return r2 ->
     db (run env cfg req_v
           (OnDisk.handlerUploadThumbnail env mediaTypeToExt getAssetDiskPath
              getAssetURL cfg req_t w).2).2 !! v = Some (body r2) ∧
     thumbnailURL (body r2) = thumbnailURL (body r1) ∧
     is_Some (thumbnailURL (body r2)) ∧ is_Some (videoURL (body r2))) ∧
  (∀ r1 r2,
     (run env cfg req_v w).1 = Return r1 ->
     (OnDisk.handlerUploadThumbnail env mediaTypeToExt getAssetDiskPath
        getAssetURL cfg req_t (run env cfg req_v w).2).1 = Return r2 ->
     db (OnDisk.handlerUploadThumbnail env mediaTypeToExt getAssetDiskPath
           getAssetURL cfg req_t (run env cfg req_v w).2).2 !! v
       = Some (body r2) ∧
     videoURL (body r2) = videoURL (body r1) ∧
     is_Some (thumbnailURL (body r2)) ∧ is_Some (videoURL (body r2))).
Proof.
  intros Hvideo Hid Ht Hv. split.
  - intros r1 r2.
    destruct (asset_upload_cases env mediaTypeToExt getAssetDiskPath
                getAssetURL cfg req_t w)
      as [[[e' ->] _]|(v1 & video1 & f & Hacc & Hrun)]; [done|].
    cbv zeta in Hrun. rewrite Hrun. cbn [fst snd]. intros [= <-] Hsecond.
    destruct Hacc as (Hv1 & _ & Hvideo1 & _).
    assert (v1 = v) as -> by congruence.
    assert (video1 = video) as -> by congruence.
    destruct (run_success_inv _ _ _ _ _ Hsecond)
      as (v2 & video2 & Hv2 & Hvideo2 & -> & Hdb).
    assert (v2 = v) as -> by congruence.
    cbn [db] in Hvideo2. rewrite Hid, Hvideo, lookup_insert_eq in Hvideo2.
    injection Hvideo2 as <-.
    rewrite Hdb. cbn [db id with_thumbnailURL body respondWithJSON].
    rewrite Hid, Hvideo. rewrite !lookup_insert_eq.
    cbn [thumbnailURL videoURL with_videoURL with_thumbnailURL]. eauto.
  - intros r1 r2 Hfirst.
    destruct (run_success_inv _ _ _ _ _ Hfirst)
      as (v1 & video1 & Hv1 & Hvideo1 & -> & Hdb).
    assert (v1 = v) as -> by congruence.
    assert (video1 = video) as -> by congruence.
    rewrite Hid, Hvideo in Hdb.
    destruct (asset_upload_cases env mediaTypeToExt getAssetDiskPath
                getAssetURL cfg req_t (run env cfg req_v w).2)
      as [[[e' ->] _]|(v2 & video2 & f & Hacc & Hrun)]; [done|].
    cbv zeta in Hrun. rewrite Hrun. cbn [fst snd db]. intros [= <-].
    destruct Hacc as (Hv2 & _ & Hvideo2 & _).
    assert (v2 = v) as -> by congruence.
    rewrite Hdb, lookup_insert_eq in Hvideo2. injection Hvideo2 as <-.
    cbn [id with_videoURL body respondWithJSON].
    rewrite Hid, Hdb. rewrite !lookup_insert_eq.
    cbn [thumbnailURL videoURL with_videoURL with_thumbnailURL]. eauto.
Qed.

Lemma uploads_keep_each_others_field_witness :
  let w1 := (OnDisk.handlerUploadThumbnail Sample.env_ok
               ThumbSample.mediaTypeToExt ThumbSample.getAssetDiskPath
               ThumbSample.getAssetURL Sample.cfg
               (ThumbSample.request "v1" "token-u1" ThumbSample.image)
               Sample.world).2 in
  ∃ r2,
    (run Sample.env_ok Sample.cfg
       (Sample.request "v1" "token-u1" Sample.clip) w1).1 = Return r2 ∧
    thumbnailURL (body r2) = Some "http://localhost:8091/assets/v1.jpg" ∧
    is_Some (videoURL (body r2)).
Proof.
  intros w1.
  destruct (run Sample.env_ok Sample.cfg
              (Sample.request "v1" "token-u1" Sample.clip) w1).1
    as [r2|] eqn:Hsecond; [|vm_compute in Hsecond; discriminate].
  exists r2. split; [done|].
  destruct (proj1 (uploads_keep_each_others_field Sample.env_ok
                     ThumbSample.mediaTypeToExt ThumbSample.getAssetDiskPath
                     ThumbSample.getAssetURL Sample.cfg
                     (ThumbSample.request "v1" "token-u1" ThumbSample.image)
                     (Sample.request "v1" "token-u1" Sample.clip)
                     Sample.world "v1" Sample.v1 eq_refl eq_refl eq_refl
                     eq_refl)
              (respondWithJSON 200
                 (with_thumbnailURL Sample.v1
                    "http://localhost:8091/assets/v1.jpg")) r2)
    as (_ & Hthumb & _ & Hvideo); [vm_compute; reflexivity|exact Hsecond|].
  split; [exact Hthumb|exact Hvideo].
Defined.
